(** * Optical-lattice image synthesis: a shallow embedding of
      [optical_lattice/lattice_generation.py]

    The constructor [GeneratedLatticeImage.__init__] places atoms on an
    [N]x[N] lattice, samples photons around every atom, adds Poissonian dark
    counts, rasterises all events into a CCD grid and rescales the grid.

    Modelling choices.
    - Python integers are [Z].  The two [numpy] grids ([np.zeros], dtype
      float64) are lists of rows of binary64 numbers ([PrimFloat.float]),
      with IEEE arithmetic, so that [5000/0.0] is [infinity] and
      [0.0 * infinity] is [nan], as in [numpy].
    - Real-valued parameters and Gaussian samples ([std], [lam_backg], the
      photon positions) are rationals: every finite binary64 number is a
      rational and [np.rint] is exact on it; their sums and products are
      exact.  The source is Python 2 (line 100 is indented with a tab):
      [M/2] on the integer [M] is the floor division.
    - The coordinate arrays are lists of [Z].  The signal coordinates are
      collected in a float64 array and read back with [astype(int)]
      ([float64_round_trip], the identity up to [2^53]); the background
      coordinates are pixel indices of the sensor that line 83 has
      allocated, far below [2^53], and are stored as they are drawn.
      Integer arithmetic is that of [Z]: [int64] does not overflow.
    - Every array can be allocated: neither [MemoryError] nor the limit of
      [numpy] on the size of an array is modelled ([machine_sized] names
      the parameters below that limit).
    - [numpy.random] is an effect: the program is a tree of sampling
      requests ([rand]); [run] answers the requests from an [oracle] and
      records the requests that were issued.  What [numpy] guarantees about
      an answer is the [valid_oracle] contract; the argument checks with
      which a primitive raises [ValueError] are [rejects]. *)

From Stdlib Require Import ZArith QArith Qabs Qround Lqa PrimFloat Lia.
From stdpp Require Import base list.

Set Default Proof Using "Type".

(** ** Exceptions and results *)

Inductive error : Type :=
| ValueError
| IndexError
| ZeroDivisionError.

Inductive result (A : Type) : Type :=
| Ok (a : A)
| Err (e : error).
Arguments Ok {A} a.
Arguments Err {A} e.

Definition result_bind {A B} (r : result A) (f : A -> result B) : result B :=
  match r with
  | Ok a => f a
  | Err e => Err e
  end.

Notation "x <-? r ; k" := (result_bind r (fun x => k))
  (at level 100, r at next level, right associativity, only parsing).

(** ** Sampling requests *)

(** Covariance matrix [[c00, c01], [c10, c11]]. *)
Definition cov2 : Type := (Q * Q) * (Q * Q).

Inductive request : Type :=
| choice (a : list Z) (size : Z) (replace : bool)
| multivariate_normal (mean : Q * Q) (cov : cov2) (size : Z)
| poisson (lam : Q).

(** The program: a value, an exception, or a sampling request with the
    rest of the program waiting for the sample. *)
Inductive rand (A : Type) : Type :=
| Ret (a : A)
| Raise (e : error)
| Choice (a : list Z) (size : Z) (replace : bool) (k : list Z -> rand A)
| MultivariateNormal (mean : Q * Q) (cov : cov2) (size : Z)
    (k : list (Q * Q) -> rand A)
| Poisson (lam : Q) (k : Z -> rand A).
Arguments Ret {A} a.
Arguments Raise {A} e.
Arguments Choice {A} a size replace k.
Arguments MultivariateNormal {A} mean cov size k.
Arguments Poisson {A} lam k.

Fixpoint bind {A B} (m : rand A) (f : A -> rand B) : rand B :=
  match m with
  | Ret a => f a
  | Raise e => Raise e
  | Choice a size replace k => Choice a size replace (fun l => bind (k l) f)
  | MultivariateNormal mean cov size k =>
      MultivariateNormal mean cov size (fun l => bind (k l) f)
  | Poisson lam k => Poisson lam (fun n => bind (k n) f)
  end.

Definition lift {A} (r : result A) : rand A :=
  match r with
  | Ok a => Ret a
  | Err e => Raise e
  end.

Notation "x <- m ;; k" := (bind m (fun x => k))
  (at level 100, m at next level, right associativity, only parsing).

(** [POISSON_LAM_MAX] of [numpy.random]: the binary64 value of
    [np.iinfo('l').max - np.sqrt(np.iinfo('l').max)*10] with a 64-bit
    [long], about [9.22e18]. *)
Definition poisson_lam_max : Q := inject_Z 9223372006484770816.

(** The argument checks of the [numpy.random] primitives: a request that
    is rejected raises [ValueError] and draws nothing.
    - [choice]: negative size; an empty population unless no sample is
      taken; without replacement, a sample larger than the population.
    - [multivariate_normal]: negative size (a covariance that is not
      positive semi-definite is only warned about).
    - [poisson]: negative [lam], and [lam] above [poisson_lam_max]. *)
Definition rejects (r : request) : bool :=
  match r with
  | choice a size replace =>
      (size <? 0)%Z
      || (Nat.eqb (length a) 0 && negb (size =? 0)%Z)
      || (negb replace && (Z.of_nat (length a) <? size)%Z)
  | multivariate_normal _ _ size => (size <? 0)%Z
  | poisson lam =>
      match Qcompare lam 0 with
      | Lt => true
      | _ => match Qcompare lam poisson_lam_max with Gt => true | _ => false end
      end
  end.

(** The source of randomness: it answers the [i]-th request of a run. *)
Record oracle : Type := {
  o_choice : nat -> list Z -> Z -> bool -> list Z;
  o_normal : nat -> Q * Q -> cov2 -> Z -> list (Q * Q);
  o_poisson : nat -> Q -> Z
}.

(** [run m o i] runs [m] from request number [i]: the requests issued, in
    order, and the outcome. *)
Fixpoint run {A} (m : rand A) (o : oracle) (i : nat) : list request * result A :=
  match m with
  | Ret a => ([], Ok a)
  | Raise e => ([], Err e)
  | Choice a size replace k =>
      let r := choice a size replace in
      if rejects r then ([r], Err ValueError)
      else let '(t, out) := run (k (o_choice o i a size replace)) o (S i) in
           (r :: t, out)
  | MultivariateNormal mean cov size k =>
      let r := multivariate_normal mean cov size in
      if rejects r then ([r], Err ValueError)
      else let '(t, out) := run (k (o_normal o i mean cov size)) o (S i) in
           (r :: t, out)
  | Poisson lam k =>
      let r := poisson lam in
      if rejects r then ([r], Err ValueError)
      else let '(t, out) := run (k (o_poisson o i lam)) o (S i) in
           (r :: t, out)
  end.

(** What [numpy] guarantees about the answer to an accepted request:
    [choice] returns [size] elements of the population, pairwise distinct
    when drawn without replacement from distinct elements;
    [multivariate_normal] returns [size] points; [poisson] returns a
    count, which is 0 when the mean is 0. *)
Record valid_oracle (o : oracle) : Prop := {
  choice_length : forall i a size replace,
    rejects (choice a size replace) = false ->
    length (o_choice o i a size replace) = Z.to_nat size;
  choice_elem : forall i a size replace,
    rejects (choice a size replace) = false ->
    Forall (fun x => x ∈ a) (o_choice o i a size replace);
  choice_distinct : forall i a size,
    rejects (choice a size false) = false ->
    NoDup a -> NoDup (o_choice o i a size false);
  normal_length : forall i mean cov size,
    rejects (multivariate_normal mean cov size) = false ->
    length (o_normal o i mean cov size) = Z.to_nat size;
  poisson_nonneg : forall i lam,
    rejects (poisson lam) = false -> (0 <= o_poisson o i lam)%Z;
  poisson_zero : forall i lam,
    (lam == 0)%Q -> o_poisson o i lam = 0%Z
}.

(** ** [numpy] array helpers *)

Abbreviation grid := (list (list float)).

(** [np.arange(n)] and [np.arange(0, n, 1)]. *)
Definition arange (n : Z) : list Z := map Z.of_nat (seq 0 (Z.to_nat n)).

(** [np.zeros((rows, cols))]: negative dimensions are not allowed. *)
Definition zeros (rows cols : Z) : result grid :=
  if ((rows <? 0) || (cols <? 0))%Z then Err ValueError
  else Ok (replicate (Z.to_nat rows) (replicate (Z.to_nat cols) 0%float)).

(** [np.unravel_index(indices, (d0, d1))], C order: index [i] becomes
    [(i // d1, i % d1)]; an index outside [0, d0*d1) is a [ValueError]. *)
Fixpoint unravel_index (indices : list Z) (shape : Z * Z) : result (list Z * list Z) :=
  match indices with
  | [] => Ok ([], [])
  | i :: rest =>
      if ((0 <=? i) && (i <? fst shape * snd shape))%Z then
        qr <-? unravel_index rest shape;
        Ok ((i / snd shape)%Z :: fst qr, (i mod snd shape)%Z :: snd qr)
      else Err ValueError
  end.

(** Index normalisation of a [numpy] axis of length [len]: [0 <= i < len]
    is position [i], [-len <= i < 0] wraps around to [i + len], anything
    else is an [IndexError]. *)
Definition norm_index (len : nat) (i : Z) : result nat :=
  if ((0 <=? i) && (i <? Z.of_nat len))%Z then Ok (Z.to_nat i)
  else if ((- Z.of_nat len <=? i) && (i <? 0))%Z then Ok (Z.to_nat (i + Z.of_nat len))
  else Err IndexError.

(** [g[y, x] = f(g[y, x])] on a two-dimensional array. *)
Definition update2 (g : grid) (y x : Z) (f : float -> float) : result grid :=
  i <-? norm_index (length g) y;
  match g !! i with
  | None => Err IndexError
  | Some row =>
      j <-? norm_index (length row) x;
      match row !! j with
      | None => Err IndexError
      | Some v => Ok (<[i := <[j := f v]> row]> g)
      end
  end.

(** The propagating maximum of two binary64 numbers ([np.maximum]). *)
Definition fmax (a b : float) : float :=
  if is_nan a then a
  else if is_nan b then b
  else if (a <? b)%float then b else a.

(** [g.max()]: the maximum over all cells; an array without cells is a
    [ValueError]. *)
Definition amax (g : grid) : result float :=
  match concat g with
  | [] => Err ValueError
  | v :: rest => Ok (fold_left fmax rest v)
  end.

(** [np.rint] on a rational: the nearest integer, ties to even. *)
Definition rint (q : Q) : Z :=
  let f := Qfloor q in
  match Qcompare (q - inject_Z f) (1 # 2) with
  | Lt => f
  | Gt => (f + 1)%Z
  | Eq => if Z.even f then f else (f + 1)%Z
  end.

(** ** The synthesizer *)

Record params : Type := {
  N : Z;
  M : Z;
  N_atom : Z;
  N_photon : Z;
  CCD_resolution : Z;
  lattice_origin : Z * Z;
  std : Q;
  N_backg : Z;
  lam_backg : Q
}.

(** The keyword defaults of [__init__]. *)
Definition default_params (N M N_atom N_photon : Z) : params :=
  {| N := N; M := M; N_atom := N_atom; N_photon := N_photon;
     CCD_resolution := 1024; lattice_origin := (400, 600)%Z;
     std := 10; N_backg := 2000; lam_backg := 200 |}.

Record image : Type := {
  x_loc : list Z;
  y_loc : list Z;
  actual_lattice : grid;
  pixel_grid : grid
}.

(** Lines 72-73: [for x,y in zip(...): actual_lattice[y,x] = 1]. *)
Fixpoint mark_atoms (g : grid) (sites : list (Z * Z)) : result grid :=
  match sites with
  | [] => Ok g
  | (x, y) :: rest =>
      g' <-? update2 g y x (fun _ => 1%float);
      mark_atoms g' rest
  end.

(** Lines 79-81: the centre of a site, before the lattice origin is
    added: [x_index = a*M + M/2], [y_index = N*M - (b*M + M/2)].  The
    source is Python 2 (line 100 is indented with a tab among lines
    indented with spaces, which Python 3 refuses), where [M/2] on the
    integer [M] is the floor division. *)
Definition x_center (p : params) (a : Z) : Q :=
  inject_Z a * inject_Z (M p) + inject_Z (M p / 2).

Definition y_center (p : params) (b : Z) : Q :=
  inject_Z (N p) * inject_Z (M p) - (inject_Z b * inject_Z (M p) + inject_Z (M p / 2)).

(** An integer coordinate put into a float64 array and read back with
    [astype(int)] (the concatenations of lines 93-94 with the float64
    array of line 86, and lines 104-105): the nearest binary64 number,
    ties to even.  It is the coordinate itself up to [2^53]. *)
Definition float64_round_trip (v : Z) : Z :=
  let a := Z.abs v in
  if (a <? 2 ^ 53)%Z then v
  else
    let e := (Z.log2 a - 52)%Z in
    let q := (a / 2 ^ e)%Z in
    let r := (a mod 2 ^ e)%Z in
    let q' := if ((2 ^ (e - 1) <? r) || ((r =? 2 ^ (e - 1)) && Z.odd q))%Z
              then (q + 1)%Z else q in
    (Z.sgn v * (q' * 2 ^ e))%Z.

(** Lines 91-94 and 104-105: [np.rint(xx).astype(int) + lattice_origin[0]],
    as it is read back from [x_loc]. *)
Definition pixel_x (p : params) (s : Q * Q) : Z :=
  float64_round_trip (rint (fst s) + fst (lattice_origin p)).
Definition pixel_y (p : params) (s : Q * Q) : Z :=
  float64_round_trip (rint (snd s) + snd (lattice_origin p)).

Definition photon_cov (p : params) : cov2 := ((std p, 0%Q), (0%Q, std p)).

(** Lines 88-94: [for i in range(N_atom)]; [idx] is the range still to
    visit, [x_loc] and [y_loc] the coordinates collected so far. *)
Fixpoint photon_loop (p : params) (x_index y_index : list Q) (idx : list nat)
    (x_loc y_loc : list Z) : rand (list Z * list Z) :=
  match idx with
  | [] => Ret (x_loc, y_loc)
  | i :: rest =>
      match x_index !! i, y_index !! i with
      | Some cx, Some cy =>
          MultivariateNormal (cx, cy) (photon_cov p) (N_photon p) (fun s =>
            let xx := map (pixel_x p) s in
            let yy := map (pixel_y p) s in
            photon_loop p x_index y_index rest (x_loc ++ xx) (y_loc ++ yy))
      | _, _ => Raise IndexError
      end
  end.

(** Line 110: [x<CCD_resolution and y<CCD_resolution and x>0 and y>0]. *)
Definition on_ccd (ccd : Z) (e : Z * Z) : bool :=
  ((fst e <? ccd) && (snd e <? ccd) && (0 <? fst e) && (0 <? snd e))%Z.

(** Lines 110-112: one event [(x, y)] of the rasterisation loop. *)
Definition raster_step (ccd : Z) (g : grid) (e : Z * Z) : result grid :=
  if on_ccd ccd e then update2 g (snd e) (fst e) (fun v => (v + 1)%float)
  else Ok g.

(** Lines 109-112. *)
Fixpoint rasterize (ccd : Z) (g : grid) (events : list (Z * Z)) : result grid :=
  match events with
  | [] => Ok g
  | e :: rest =>
      g' <-? raster_step ccd g e;
      rasterize ccd g' rest
  end.

(** Lines 115-116: [pixel_grid *= 5000/pixel_grid.max()], then
    [pixel_grid += 600]. *)
Definition rescale (g : grid) : result grid :=
  m <-? amax g;
  let factor := (5000 / m)%float in
  let g1 := map (map (fun c => (c * factor)%float)) g in
  Ok (map (map (fun c => (c + 600)%float)) g1).

(** [GeneratedLatticeImage.__init__], lines 66-122.  Line 77 adds an
    array of zeros to the unravelled indices, which only turns the pair of
    index arrays into one float array; the attributes [N], [M], [std] and
    [lattice_origin] that the constructor also stores are its
    parameters.  Lines 104-105 append the background coordinates, integers
    of [0, CCD_resolution), to the float64 array of the signal coordinates
    and read the whole back with [astype(int)]: the signal coordinates are
    those of [pixel_x] and [pixel_y], the background coordinates are
    unchanged. *)
Definition synthesize (p : params) : rand image :=
  atom_location <- Choice (arange (N p * N p)) (N_atom p) false Ret ;;
  lattice <- lift (zeros (N p) (N p)) ;;
  atom_location_index <- lift (unravel_index atom_location (N p, N p)) ;;
  let ix := fst atom_location_index in
  let iy := snd atom_location_index in
  lattice <- lift (mark_atoms lattice (zip ix iy)) ;;
  let x_index := map (x_center p) ix in
  let y_index := map (y_center p) iy in
  pixels <- lift (zeros (CCD_resolution p) (CCD_resolution p)) ;;
  signal <- photon_loop p x_index y_index (seq 0 (Z.to_nat (N_atom p))) [] [] ;;
  let CCD_x := arange (CCD_resolution p) in
  let CCD_y := arange (CCD_resolution p) in
  dark_count_tot <- Poisson (lam_backg p * inject_Z (N_backg p)) Ret ;;
  dark_x <- Choice CCD_x dark_count_tot true Ret ;;
  dark_y <- Choice CCD_y dark_count_tot true Ret ;;
  let xs := fst signal ++ dark_x in
  let ys := snd signal ++ dark_y in
  pixels <- lift (rasterize (CCD_resolution p) pixels (zip xs ys)) ;;
  pixels <- lift (rescale pixels) ;;
  Ret {| x_loc := xs; y_loc := ys; actual_lattice := lattice; pixel_grid := pixels |}.

(** ** A deterministic source of randomness

    [fixed_oracle k pick jitter] answers every request within the
    contract: without replacement the first [size] elements of the
    population, with replacement [size] copies of the element at position
    [pick], every Gaussian sample at [mean + jitter], every Poisson count
    [k] (0 when the mean is 0). *)
Definition fixed_oracle (k : nat) (pick : nat) (jitter : Q * Q) : oracle :=
  {| o_choice := fun _ a size replace =>
       if replace then replicate (Z.to_nat size) (nth pick a (hd 0%Z a))
       else take (Z.to_nat size) a;
     o_normal := fun _ mean _ size =>
       replicate (Z.to_nat size) ((fst mean + fst jitter)%Q, (snd mean + snd jitter)%Q);
     o_poisson := fun _ lam => if Qeq_bool lam 0 then 0%Z else Z.of_nat k |}.

(** ** Shapes, cells and direct updates of a grid *)

(** A grid of [rows] rows of [cols] cells each. *)
Definition shape (g : grid) (rows cols : nat) : Prop :=
  length g = rows /\ Forall (fun row => length row = cols) g.

(** The cell in row [y], column [x]. *)
Definition cell (g : grid) (y x : nat) : option float :=
  match g !! y with
  | Some row => row !! x
  | None => None
  end.

(** The update of the cell in column [fst e], row [snd e], by a position
    counted from the start of each axis (no wrap-around). *)
Definition poke (f : float -> float) (g : grid) (e : Z * Z) : grid :=
  alter (alter f (Z.to_nat (fst e))) (Z.to_nat (snd e)) g.

(** The event [(x, y)] addresses a cell of a [rows] x [cols] grid. *)
Definition inside (rows cols : nat) (e : Z * Z) : Prop :=
  (0 <= fst e < Z.of_nat cols)%Z /\ (0 <= snd e < Z.of_nat rows)%Z.

(** The position (row, column) of an event [(x, y)]. *)
Definition pos (e : Z * Z) : nat * nat := (Z.to_nat (snd e), Z.to_nat (fst e)).

(** The number of cells of a row, and of a grid, that compare equal to
    [v] ([(g == v).sum()]). *)
Fixpoint count_row (v : float) (row : list float) : nat :=
  match row with
  | [] => 0
  | c :: rest => (if (c =? v)%float then 1 else 0) + count_row v rest
  end.

Fixpoint count_cells (v : float) (g : grid) : nat :=
  match g with
  | [] => 0
  | row :: rest => count_row v row + count_cells v rest
  end.

(** ** Sites of the lattice and events that reach the grid *)

(** The two components of the site index [i] on an [n] x [n] lattice, as
    [np.unravel_index] returns them. *)
Definition site (n : Z) (i : Z) : Z * Z := ((i / n)%Z, (i mod n)%Z).

(** The events that reach the grid, in order. *)
Definition raster_writes (ccd : Z) (events : list (Z * Z)) : list (Z * Z) :=
  List.filter (on_ccd ccd) events.

(** ** The samples, requests and grids of a complete run *)

(** The parameters with which no call of the constructor raises. *)
Record valid_params (p : params) : Prop := {
  N_nonneg : (0 <= N p)%Z;
  N_atom_range : (0 <= N_atom p <= N p * N p)%Z;
  N_photon_nonneg : (0 <= N_photon p)%Z;
  CCD_positive : (0 < CCD_resolution p)%Z;
  lam_nonneg : (0 <= lam_backg p * inject_Z (N_backg p))%Q;
  lam_bounded : (lam_backg p * inject_Z (N_backg p) <= poisson_lam_max)%Q
}.

(** The answers to the photon requests numbered [i], [i+1], ... whose
    means are [centres]. *)
Fixpoint photon_draws (p : params) (o : oracle) (i : nat) (centres : list (Q * Q))
    : list (list (Q * Q)) :=
  match centres with
  | [] => []
  | c :: rest => o_normal o i c (photon_cov p) (N_photon p) :: photon_draws p o (S i) rest
  end.

(** The request for the photons of an atom centred at [c] (line 89). *)
Definition photon_request (p : params) (c : Q * Q) : request :=
  multivariate_normal c (photon_cov p) (N_photon p).

(** The samples of a run, read off the oracle at the request numbers at
    which [synthesize] asks for them. *)
Definition drawn_atoms (p : params) (o : oracle) : list Z :=
  o_choice o 0 (arange (N p * N p)) (N_atom p) false.

(** The centre of the site of index [i], before the lattice origin is
    added. *)
Definition centre (p : params) (i : Z) : Q * Q :=
  (x_center p (i / N p), y_center p (i mod N p)).

Definition drawn_photons (p : params) (o : oracle) : list (list (Q * Q)) :=
  photon_draws p o 1 (map (centre p) (drawn_atoms p o)).

(** The mean of the dark-count request (line 100). *)
Definition dark_mean (p : params) : Q := lam_backg p * inject_Z (N_backg p).

Definition drawn_dark_count (p : params) (o : oracle) : Z :=
  o_poisson o (1 + length (drawn_atoms p o)) (dark_mean p).

Definition drawn_dark_x (p : params) (o : oracle) : list Z :=
  o_choice o (2 + length (drawn_atoms p o)) (arange (CCD_resolution p))
    (drawn_dark_count p o) true.

Definition drawn_dark_y (p : params) (o : oracle) : list Z :=
  o_choice o (3 + length (drawn_atoms p o)) (arange (CCD_resolution p))
    (drawn_dark_count p o) true.

Definition signal_x (p : params) (o : oracle) : list Z :=
  concat (map (map (pixel_x p)) (drawn_photons p o)).

Definition signal_y (p : params) (o : oracle) : list Z :=
  concat (map (map (pixel_y p)) (drawn_photons p o)).

(** The requests of a complete run, in order. *)
Definition requests (p : params) (o : oracle) : list request :=
  choice (arange (N p * N p)) (N_atom p) false
  :: map (photon_request p) (map (centre p) (drawn_atoms p o))
  ++ [poisson (dark_mean p);
      choice (arange (CCD_resolution p)) (drawn_dark_count p o) true;
      choice (arange (CCD_resolution p)) (drawn_dark_count p o) true].

(** The two grids of a complete run, before the rescale. *)
Definition marked_lattice (p : params) (o : oracle) : grid :=
  foldl (poke (fun _ => 1%float))
    (replicate (Z.to_nat (N p)) (replicate (Z.to_nat (N p)) 0%float))
    (map (site (N p)) (drawn_atoms p o)).

Definition counts (p : params) (o : oracle) : grid :=
  foldl (poke (fun v => (v + 1)%float))
    (replicate (Z.to_nat (CCD_resolution p)) (replicate (Z.to_nat (CCD_resolution p)) 0%float))
    (raster_writes (CCD_resolution p)
       (zip (signal_x p o ++ drawn_dark_x p o) (signal_y p o ++ drawn_dark_y p o))).

(** The requests to [np.random.poisson]. *)
Definition is_poisson (r : request) : bool :=
  match r with
  | poisson _ => true
  | _ => false
  end.

(** ** The rescale of counts

    A pixel that [n] events have reached holds the binary64 number that
    [n] increments give from 0; the rescale maps the cell [c] of a grid
    of maximum [m] to [c * (5000 / m) + 600], each operation rounded.
    What the rescale does to counts is checked by evaluation, for every
    count and every maximum up to [count_limit]. *)




(** The distance of two binary64 numbers next to 5600: [2^-40]. *)
Definition ulp_5600 : float := 0x1p-40%float.





(** ** Concrete parameters and sources of randomness *)

(** One atom, one photon, no background, on a 16 x 16 sensor. *)
Definition one_atom : params :=
  {| N := 2; M := 4; N_atom := 1; N_photon := 1; CCD_resolution := 16;
     lattice_origin := (0, 0)%Z; std := 0; N_backg := 0; lam_backg := 200 |}.

(** No atom and no background. *)
Definition no_atom : params :=
  {| N := 2; M := 4; N_atom := 0; N_photon := 1; CCD_resolution := 4;
     lattice_origin := (0, 0)%Z; std := 1; N_backg := 0; lam_backg := 200 |}.

(** One atom whose photon lands in column 0 of the sensor, no background. *)
Definition edge_atom : params :=
  {| N := 1; M := 4; N_atom := 1; N_photon := 1; CCD_resolution := 16;
     lattice_origin := (-2, 0)%Z; std := 0; N_backg := 0; lam_backg := 200 |}.

(** No atom, background only, on a 4 x 4 sensor. *)
Definition background_only : params :=
  {| N := 2; M := 4; N_atom := 0; N_photon := 1; CCD_resolution := 4;
     lattice_origin := (0, 0)%Z; std := 1; N_backg := 1; lam_backg := 200 |}.

(** A full 2 x 2 lattice. *)
Definition full_lattice : params :=
  {| N := 2; M := 4; N_atom := 4; N_photon := 2; CCD_resolution := 16;
     lattice_origin := (1, 2)%Z; std := 1; N_backg := 1; lam_backg := 3 |}.

(** Two atoms on a 3 x 3 lattice. *)
Definition two_atoms : params :=
  {| N := 3; M := 4; N_atom := 2; N_photon := 1; CCD_resolution := 16;
     lattice_origin := (0, 0)%Z; std := 1; N_backg := 0; lam_backg := 200 |}.

(** One atom on a lattice of odd pitch [M = 5]. *)
Definition odd_pitch : params :=
  {| N := 2; M := 5; N_atom := 1; N_photon := 1; CCD_resolution := 16;
     lattice_origin := (0, 0)%Z; std := 1; N_backg := 0; lam_backg := 200 |}.

(** No atom, and a negative photon count that is never used. *)
Definition no_photon_count : params :=
  {| N := 2; M := 4; N_atom := 0; N_photon := -1; CCD_resolution := 4;
     lattice_origin := (0, 0)%Z; std := 1; N_backg := 1; lam_backg := 3 |}.


(** One atom more than the lattice has sites. *)
Definition too_many_atoms : params :=
  {| N := 2; M := 4; N_atom := 5; N_photon := 1; CCD_resolution := 16;
     lattice_origin := (0, 0)%Z; std := 1; N_backg := 1; lam_backg := 200 |}.

(** Samples at the mean, no dark count. *)
Definition quiet : oracle := fixed_oracle 0 0 (0, 0)%Q.

(** 139 dark counts, all at pixel (1, 1). *)
Definition hot_pixel : oracle := fixed_oracle 139 1 (0, 0)%Q.

(** Three dark counts at pixel (0, 0), samples off the mean by (1/2, -21/2). *)
Definition corner : oracle := fixed_oracle 3 0 (1 # 2, - (21 # 2))%Q.

(** ** The later stages of the constructor

    The constructor from line 83 on, once the atoms are drawn and marked,
    and from line 97 on, once the photons are collected: the rest of
    [synthesize] after its first, and after its second, stage. *)

Definition from_background (p : params) (lattice pixels : grid)
    (signal : list Z * list Z) : rand image :=
  let CCD_x := arange (CCD_resolution p) in
  let CCD_y := arange (CCD_resolution p) in
  dark_count_tot <- Poisson (lam_backg p * inject_Z (N_backg p)) Ret ;;
  dark_x <- Choice CCD_x dark_count_tot true Ret ;;
  dark_y <- Choice CCD_y dark_count_tot true Ret ;;
  let xs := fst signal ++ dark_x in
  let ys := snd signal ++ dark_y in
  pixels <- lift (rasterize (CCD_resolution p) pixels (zip xs ys)) ;;
  pixels <- lift (rescale pixels) ;;
  Ret {| x_loc := xs; y_loc := ys; actual_lattice := lattice; pixel_grid := pixels |}.

Definition from_photons (p : params) (atoms : list Z) (lattice : grid) : rand image :=
  let x_index := map (x_center p) (map (fun i => (i / N p)%Z) atoms) in
  let y_index := map (y_center p) (map (fun i => (i mod N p)%Z) atoms) in
  pixels <- lift (zeros (CCD_resolution p) (CCD_resolution p)) ;;
  signal <- photon_loop p x_index y_index (seq 0 (Z.to_nat (N_atom p))) [] [] ;;
  from_background p lattice pixels signal.

(** The parameters that the constructor accepts: the lattice and the
    sensor can be allocated, the atoms fit on the lattice, the sensor has
    at least one pixel, the photon count is not negative unless no atom
    asks for photons, and the dark-count mean is neither negative nor
    above [poisson_lam_max]. *)
Definition accepted (p : params) : Prop :=
  (0 <= N p)%Z
  /\ (0 <= N_atom p <= N p * N p)%Z
  /\ (N_atom p = 0%Z \/ 0 <= N_photon p)%Z
  /\ (0 < CCD_resolution p)%Z
  /\ (0 <= lam_backg p * inject_Z (N_backg p) <= poisson_lam_max)%Q.


(** ** Events at a pixel *)

(** The event [e] is at column [x], row [y]. *)
Definition at_pixel (x y : Z) (e : Z * Z) : bool :=
  ((fst e =? x) && (snd e =? y))%Z.

(** The number of events at column [x], row [y]. *)
Definition hits (x y : Z) (events : list (Z * Z)) : nat :=
  length (List.filter (at_pixel x y) events).

(** The same parameters with another lattice origin. *)
Definition with_origin (p : params) (origin : Z * Z) : params :=
  {| N := N p; M := M p; N_atom := N_atom p; N_photon := N_photon p;
     CCD_resolution := CCD_resolution p; lattice_origin := origin;
     std := std p; N_backg := N_backg p; lam_backg := lam_backg p |}.

(** ** The plotting methods

    [grid_plot] and [plot] draw with [matplotlib]; what they hand over to
    it is a [figure]: the coordinates of the markers, the positions of the
    grid lines on the two axes, and whether the y axis is inverted.  The
    tick positions are half-integers, exact in binary64; they are
    rationals here. *)

Record figure : Type := {
  marker_x : list Z;
  marker_y : list Z;
  xticks : list Q;
  yticks : list Q;
  y_inverted : bool
}.

(** [np.arange(start, stop, step)] on floats: [ceil((stop - start)/step)]
    values [start + i*step]; with a zero step the division that gives the
    length raises [ZeroDivisionError]. *)
Definition arange_step (start stop step : Q) : result (list Q) :=
  if Qeq_bool step 0 then Err ZeroDivisionError
  else Ok (map (fun i => (start + inject_Z (Z.of_nat i) * step)%Q)
             (seq 0 (Z.to_nat (Qceiling ((stop - start) / step)%Q)))).

(** Lines 135-138: [coords[0,:] = x_loc; coords[1,:] = y_loc], read by
    columns.  The second assignment broadcasts a [y_loc] of length 1 and
    otherwise needs the length of [x_loc]. *)
Definition stack_coords (xs ys : list Z) : result (list (Z * Z)) :=
  if Nat.eqb (length ys) (length xs) then Ok (zip xs ys)
  else match ys with
       | [y] => Ok (map (fun x => (x, y)) xs)
       | _ => Err ValueError
       end.

(** Line 139: the events strictly inside the lattice region. *)
Definition in_lattice_region (p : params) (c : Z * Z) : bool :=
  let x0 := fst (lattice_origin p) in
  let y0 := snd (lattice_origin p) in
  ((x0 <? fst c) && (fst c <? x0 + N p * M p)
   && (y0 <? snd c) && (snd c <? y0 + N p * M p))%Z.

(** Line 140: the events of the first [num_sites] sites of each axis. *)
Definition in_first_sites (p : params) (num_sites : Z) (c : Z * Z) : bool :=
  ((fst c <? num_sites * M p + fst (lattice_origin p))
   && (snd c <? num_sites * M p + snd (lattice_origin p)))%Z.

(** [grid_plot(self, num_sites, invert_y)], lines 129-148. *)
Definition grid_plot (p : params) (img : image) (num_sites : Z) (invert_y : bool)
    : result figure :=
  coords <-? stack_coords (x_loc img) (y_loc img);
  let lattice_coords := List.filter (in_lattice_region p) coords in
  let reduced_lattice_coords := List.filter (in_first_sites p num_sites) lattice_coords in
  xt <-? arange_step (- (1 # 2) - 1 * inject_Z (M p))%Q
           (inject_Z (num_sites + 1) * inject_Z (M p) + (1 # 2))%Q 1%Q;
  yt <-? arange_step (- (1 # 2) - 1 * inject_Z (M p))%Q
           (inject_Z (num_sites + 1) * inject_Z (M p) + (1 # 2))%Q 1%Q;
  Ok {| marker_x := map fst reduced_lattice_coords;
        marker_y := map snd reduced_lattice_coords;
        xticks := map (fun t => (t + inject_Z (fst (lattice_origin p)))%Q) xt;
        yticks := map (fun t => (t + inject_Z (snd (lattice_origin p)))%Q) yt;
        y_inverted := invert_y |}.

(** Index assignment [t[i, j] = v] on an array of points. *)
Definition set_point (t : list (list (Q * Q))) (i j : Z) (v : Q * Q)
    : result (list (list (Q * Q))) :=
  i' <-? norm_index (length t) i;
  match t !! i' with
  | None => Err IndexError
  | Some row =>
      j' <-? norm_index (length row) j;
      Ok (<[i' := <[j' := v]> row]> t)
  end.

(** Lines 166-167: [for ny in range(N): center_points[nx, ny] = ...];
    [self.M / 2] is the floor division of Python 2. *)
Fixpoint fill_row (p : params) (nx : Z) (nys : list Z) (t : list (list (Q * Q)))
    : result (list (list (Q * Q))) :=
  match nys with
  | [] => Ok t
  | ny :: rest =>
      t' <-? set_point t nx ny
               ((inject_Z (M p / 2) + inject_Z nx * inject_Z (M p))%Q,
                (inject_Z (M p / 2) + inject_Z ny * inject_Z (M p))%Q);
      fill_row p nx rest t'
  end.

(** Lines 165-167: [for nx in range(N): ...]. *)
Fixpoint fill_rows (p : params) (nxs : list Z) (t : list (list (Q * Q)))
    : result (list (list (Q * Q))) :=
  match nxs with
  | [] => Ok t
  | nx :: rest =>
      t' <-? fill_row p nx (arange (N p)) t;
      fill_rows p rest t'
  end.

(** Lines 162-167: [np.zeros((N, N, 2))], then the two loops. *)
Definition center_points (p : params) : result (list (list (Q * Q))) :=
  if (N p <? 0)%Z then Err ValueError
  else fill_rows p (arange (N p))
         (replicate (Z.to_nat (N p)) (replicate (Z.to_nat (N p)) (0, 0)%Q)).

(** [plot(self, invert_y)], lines 150-167: the figure and the
    [center_points] attribute it stores.  [plt.plot] needs as many x as y
    coordinates. *)
Definition plot (p : params) (img : image) (invert_y : bool)
    : result (figure * list (list (Q * Q))) :=
  _ <-? (if Nat.eqb (length (x_loc img)) (length (y_loc img)) then Ok tt
         else Err ValueError);
  xt <-? arange_step (- (1 # 2) - 1 * inject_Z (M p))%Q
           (inject_Z (N p + 1) * inject_Z (M p) + (1 # 2))%Q (inject_Z (M p));
  yt <-? arange_step (- (1 # 2) - 1 * inject_Z (M p))%Q
           (inject_Z (N p + 1) * inject_Z (M p) + (1 # 2))%Q (inject_Z (M p));
  points <-? center_points p;
  Ok ({| marker_x := x_loc img;
         marker_y := y_loc img;
         xticks := map (fun t => (t + inject_Z (fst (lattice_origin p)))%Q) xt;
         yticks := map (fun t => (t + inject_Z (snd (lattice_origin p)))%Q) yt;
         y_inverted := invert_y |},
      points).

(** The entry [t[i][j]] of an array of points. *)
Definition point (t : list (list (Q * Q))) (i j : nat) : option (Q * Q) :=
  match t !! i with
  | Some row => row !! j
  | None => None
  end.

(** The value that line 167 stores at [center_points[nx, ny]]. *)
Definition center_value (p : params) (nx ny : Z) : Q * Q :=
  ((inject_Z (M p / 2) + inject_Z nx * inject_Z (M p))%Q,
   (inject_Z (M p / 2) + inject_Z ny * inject_Z (M p))%Q).

(** A square array of points with [n] rows. *)
Definition square (t : list (list (Q * Q))) (n : nat) : Prop :=
  length t = n /\ Forall (fun row => length row = n) t.

(** * Properties *)

(** ** Arithmetic of [rint] and of the site centres *)

Lemma rint_nearest (q : Q) :
  (Qabs (inject_Z (rint q) - q) <= 1 # 2)%Q.
Proof.
  pose proof (Qfloor_le q) as Hlo.
  pose proof (Qlt_floor q) as Hhi.
  rewrite inject_Z_plus in Hhi. change (inject_Z 1) with 1%Q in Hhi.
  apply Qabs_Qle_condition.
  unfold rint.
  destruct (Qcompare (q - inject_Z (Qfloor q)) (1 # 2)) eqn:Hc.
  - apply Qeq_alt in Hc.
    destruct (Z.even (Qfloor q)); rewrite ?inject_Z_plus;
      change (inject_Z 1) with 1%Q; split; lra.
  - apply Qlt_alt in Hc. split; lra.
  - apply Qgt_alt in Hc. rewrite inject_Z_plus.
    change (inject_Z 1) with 1%Q. split; lra.
Qed.

Lemma float64_round_trip_exact (v : Z) :
  (Z.abs v <= 2 ^ 53)%Z -> float64_round_trip v = v.
Proof.
  intros Hv. unfold float64_round_trip.
  destruct (Z.ltb_spec (Z.abs v) (2 ^ 53)) as [|Hge]; [done|].
  assert (Z.abs v = 2 ^ 53)%Z as Ha by lia.
  rewrite Ha. change (Z.log2 (2 ^ 53) - 52)%Z with 1%Z.
  change (2 ^ 53 / 2 ^ 1)%Z with (2 ^ 52)%Z.
  change (2 ^ 53 mod 2 ^ 1)%Z with 0%Z. simpl.
  destruct v as [|v|v]; simpl in *; lia.
Qed.

(** Beyond [2^53] only every other integer is a binary64 number: ties go
    to the even significand. *)
Example float64_round_trip_beyond :
  float64_round_trip (2 ^ 53 + 1) = (2 ^ 53)%Z
  /\ float64_round_trip (2 ^ 53 + 3) = (2 ^ 53 + 4)%Z
  /\ float64_round_trip (- (2 ^ 53 + 3)) = (- (2 ^ 53 + 4))%Z
  /\ float64_round_trip (2 ^ 54 + 2) = (2 ^ 54)%Z
  /\ float64_round_trip (2 ^ 54 + 3) = (2 ^ 54 + 4)%Z.
Proof. by vm_compute. Qed.

Lemma pixel_exact (origin r : Z) :
  (Z.abs r <= 2 ^ 52)%Z -> (Z.abs origin <= 2 ^ 52)%Z ->
  float64_round_trip (r + origin) = (r + origin)%Z.
Proof.
  intros Hr Ho. apply float64_round_trip_exact.
  change (2 ^ 53)%Z with (2 ^ 52 + 2 ^ 52)%Z. lia.
Qed.

(** The floor division [M/2] is the exact half of an even [M], and half a
    pixel below it for an odd [M]. *)
Lemma half_even (m : Z) :
  Z.even m = true -> (inject_Z (m / 2) == inject_Z m / 2)%Q.
Proof.
  intros He. apply Zeven_bool_iff, Zeven_div2 in He.
  rewrite Z.div2_div in He. rewrite He at 2.
  rewrite inject_Z_mult. field.
Qed.

Lemma half_odd (m : Z) :
  Z.odd m = true -> (inject_Z (m / 2) == inject_Z m / 2 - (1 # 2))%Q.
Proof.
  intros Ho. apply Zodd_bool_iff, Zodd_div2 in Ho.
  rewrite Z.div2_div in Ho. rewrite Ho at 2.
  rewrite inject_Z_plus, inject_Z_mult. change (inject_Z 1) with 1%Q. field.
Qed.

Lemma y_center_decreasing (p : params) (b1 b2 : Z) :
  (0 < M p)%Z -> (b1 < b2)%Z -> (y_center p b2 < y_center p b1)%Q.
Proof.
  intros HM Hb. unfold y_center.
  assert (inject_Z b1 * inject_Z (M p) < inject_Z b2 * inject_Z (M p))%Q as H.
  { rewrite <- !inject_Z_mult, <- Zlt_Qlt. nia. }
  lra.
Qed.

(** ** [arange] *)

Lemma length_arange (n : Z) : length (arange n) = Z.to_nat n.
Proof. unfold arange. rewrite length_map. apply length_seq. Qed.

Lemma elem_of_arange (n x : Z) : x ∈ arange n <-> (0 <= x < n)%Z.
Proof.
  unfold arange. rewrite list_elem_of_fmap. split.
  - intros (k & -> & Hk). apply elem_of_seq in Hk. lia.
  - intros H. exists (Z.to_nat x). split; [lia|]. apply elem_of_seq. lia.
Qed.

Lemma NoDup_arange (n : Z) : NoDup (arange n).
Proof.
  unfold arange. apply NoDup_fmap_2; [|apply NoDup_seq].
  intros a b H. lia.
Qed.

(** ** Grids: shape, cells and in-place updates *)

Lemma shape_replicate (rows cols : nat) (v : float) :
  shape (replicate rows (replicate cols v)) rows cols.
Proof.
  split; [apply length_replicate|].
  apply Forall_replicate, length_replicate.
Qed.

Lemma cell_replicate (rows cols y x : nat) (v : float) :
  y < rows -> x < cols -> cell (replicate rows (replicate cols v)) y x = Some v.
Proof.
  intros Hy Hx. unfold cell.
  rewrite lookup_replicate_2 by done. by apply lookup_replicate_2.
Qed.

Lemma shape_poke f g e rows cols :
  shape g rows cols -> shape (poke f g e) rows cols.
Proof.
  intros [Hl Hr]. unfold poke. split; [by rewrite length_alter|].
  apply Forall_alter; [done|].
  intros row Hrow. rewrite length_alter.
  eapply Forall_lookup_1 in Hr; eauto.
Qed.

Lemma shape_row g rows cols y row :
  shape g rows cols -> g !! y = Some row -> length row = cols.
Proof. intros [_ Hr] Hy. eapply Forall_lookup_1 in Hr; eauto. Qed.

Lemma cell_is_Some g rows cols y x :
  shape g rows cols -> y < rows -> x < cols -> is_Some (cell g y x).
Proof.
  intros Hs Hy Hx. unfold cell.
  destruct (lookup_lt_is_Some_2 g y) as [row Hrow]; [by destruct Hs as [-> _]|].
  rewrite Hrow. apply lookup_lt_is_Some_2.
  by rewrite (shape_row _ _ _ _ _ Hs Hrow).
Qed.

Lemma cell_poke_same f g e :
  cell (poke f g e) (Z.to_nat (snd e)) (Z.to_nat (fst e))
  = f <$> cell g (Z.to_nat (snd e)) (Z.to_nat (fst e)).
Proof.
  unfold cell, poke. rewrite list_lookup_alter_eq.
  destruct (g !! Z.to_nat (snd e)) as [row|]; simpl; [|done].
  by rewrite list_lookup_alter_eq.
Qed.

Lemma cell_poke_other f g e y x :
  (y, x) <> (Z.to_nat (snd e), Z.to_nat (fst e)) ->
  cell (poke f g e) y x = cell g y x.
Proof.
  intros Hne. unfold cell, poke.
  destruct (decide (y = Z.to_nat (snd e))) as [->|Hy].
  - rewrite list_lookup_alter_eq.
    destruct (g !! Z.to_nat (snd e)) as [row|]; simpl; [|done].
    rewrite list_lookup_alter_ne; [done|]. congruence.
  - by rewrite list_lookup_alter_ne.
Qed.

Lemma norm_index_inside (len : nat) (i : Z) :
  (0 <= i < Z.of_nat len)%Z -> norm_index len i = Ok (Z.to_nat i).
Proof.
  intros H. unfold norm_index.
  destruct (Z.leb_spec 0 i), (Z.ltb_spec i (Z.of_nat len)); simpl; auto; lia.
Qed.

(** Inside the array, [g[y, x] = f(g[y, x])] is the direct update. *)
Lemma update2_inside g rows cols e f :
  shape g rows cols -> inside rows cols e ->
  update2 g (snd e) (fst e) f = Ok (poke f g e).
Proof.
  intros Hs [Hx Hy]. unfold update2.
  destruct Hs as [Hl Hr].
  rewrite norm_index_inside by lia. simpl.
  destruct (lookup_lt_is_Some_2 g (Z.to_nat (snd e))) as [row Hrow]; [lia|].
  rewrite Hrow.
  assert (length row = cols) as Hlen by (eapply Forall_lookup_1 in Hr; eauto).
  rewrite norm_index_inside by lia. simpl.
  destruct (lookup_lt_is_Some_2 row (Z.to_nat (fst e))) as [v Hv]; [lia|].
  rewrite Hv. f_equal. unfold poke.
  apply list_eq. intros k.
  destruct (decide (k = Z.to_nat (snd e))) as [->|Hk].
  - rewrite list_lookup_insert_eq, list_lookup_alter_eq, Hrow by lia. simpl.
    f_equal. apply list_eq. intros j.
    destruct (decide (j = Z.to_nat (fst e))) as [->|Hj].
    + rewrite list_lookup_insert_eq, list_lookup_alter_eq, Hv by lia. done.
    + by rewrite list_lookup_insert_ne, list_lookup_alter_ne.
  - by rewrite list_lookup_insert_ne, list_lookup_alter_ne.
Qed.

(** ** Counting cells *)

Lemma count_row_replicate (v c : float) (n : nat) :
  count_row v (replicate n c) = if (c =? v)%float then n else 0.
Proof.
  induction n as [|n IH]; simpl; [by destruct (c =? v)%float|].
  rewrite IH. by destruct (c =? v)%float.
Qed.

Lemma count_cells_replicate (v : float) (row : list float) (n : nat) :
  count_cells v (replicate n row) = n * count_row v row.
Proof. induction n as [|n IH]; simpl; [done|]. by rewrite IH. Qed.

Lemma count_row_alter (v : float) (f : float -> float) (row : list float) x c :
  row !! x = Some c ->
  count_row v (alter f x row) + (if (c =? v)%float then 1 else 0)
  = count_row v row + (if (f c =? v)%float then 1 else 0).
Proof.
  revert x. induction row as [|d row IH]; intros [|x] Hx; simplify_eq/=.
  - lia.
  - specialize (IH _ Hx). lia.
Qed.

Lemma count_cells_alter (v : float) (f : float -> float) (g : grid) y x c :
  cell g y x = Some c ->
  count_cells v (alter (alter f x) y g) + (if (c =? v)%float then 1 else 0)
  = count_cells v g + (if (f c =? v)%float then 1 else 0).
Proof.
  unfold cell. revert y. induction g as [|row g IH]; intros [|y] Hy; simplify_eq/=.
  - pose proof (count_row_alter v f row x c Hy). lia.
  - specialize (IH _ Hy). lia.
Qed.

(** ** Marking the atoms *)

Lemma unravel_index_ok (n : Z) (atoms : list Z) :
  Forall (fun i => 0 <= i < n * n)%Z atoms ->
  unravel_index atoms (n, n) = Ok (map (fun i => i / n)%Z atoms, map (fun i => i mod n)%Z atoms).
Proof.
  induction 1 as [|i atoms Hi _ IH]; simpl; [done|].
  destruct (Z.leb_spec 0 i), (Z.ltb_spec i (n * n)); try lia. simpl.
  by rewrite IH.
Qed.

Lemma zip_unravel (n : Z) (atoms : list Z) :
  zip (map (fun i => i / n)%Z atoms) (map (fun i => i mod n)%Z atoms) = map (site n) atoms.
Proof. induction atoms as [|i atoms IH]; simpl; [done|]. by rewrite IH. Qed.

Lemma site_inside (n i : Z) :
  (0 <= i < n * n)%Z -> (0 <= n)%Z -> inside (Z.to_nat n) (Z.to_nat n) (site n i).
Proof.
  intros Hi Hn. assert (0 < n)%Z by nia.
  unfold inside, site; simpl. rewrite Z2Nat.id by lia.
  split; [|apply Z.mod_pos_bound; lia].
  split; [apply Z.div_pos; lia|]. apply Z.div_lt_upper_bound; lia.
Qed.

Lemma site_inj (n i j : Z) : (n <> 0)%Z -> site n i = site n j -> i = j.
Proof.
  unfold site. intros Hn [= Hd Hm].
  rewrite (Z.div_mod i n), (Z.div_mod j n) by done. congruence.
Qed.

(** Within the lattice, the marking loop is a fold of direct updates. *)
Lemma mark_atoms_inside g rows cols sites :
  shape g rows cols -> Forall (inside rows cols) sites ->
  mark_atoms g sites = Ok (foldl (poke (fun _ => 1%float)) g sites).
Proof.
  intros Hs Hin. revert g Hs.
  induction Hin as [|[x y] sites He _ IH]; intros g Hs; simpl; [done|].
  rewrite (update2_inside g rows cols (x, y)) by done. simpl.
  apply IH. by apply shape_poke.
Qed.

Lemma shape_foldl_poke f g rows cols sites :
  shape g rows cols -> shape (foldl (poke f) g sites) rows cols.
Proof.
  revert g. induction sites as [|e sites IH]; intros g Hs; simpl; [done|].
  apply IH. by apply shape_poke.
Qed.

Lemma marked_stays g sites y x :
  cell g y x = Some 1%float ->
  cell (foldl (poke (fun _ => 1%float)) g sites) y x = Some 1%float.
Proof.
  revert g. induction sites as [|e sites IH]; intros g Hg; simpl; [done|].
  apply IH. destruct (decide ((y, x) = pos e)) as [[= -> ->]|Hne].
  - by rewrite cell_poke_same, Hg.
  - by rewrite cell_poke_other.
Qed.

Lemma marked_cell g sites e :
  e ∈ sites -> is_Some (cell g (Z.to_nat (snd e)) (Z.to_nat (fst e))) ->
  cell (foldl (poke (fun _ => 1%float)) g sites) (Z.to_nat (snd e)) (Z.to_nat (fst e))
  = Some 1%float.
Proof.
  revert g. induction sites as [|e' sites IH]; intros g He Hg; [by apply elem_of_nil in He|].
  simpl. apply elem_of_cons in He as [->|He].
  - apply marked_stays. rewrite cell_poke_same.
    destruct Hg as [v ->]. done.
  - apply IH; [done|].
    destruct (decide (pos e = pos e')) as [[= Hr Hc]|Hne].
    + rewrite Hr, Hc, cell_poke_same.
      rewrite Hr, Hc in Hg. destruct Hg as [v ->]. by eexists.
    + by rewrite cell_poke_other.
Qed.

Lemma marked_count g sites :
  NoDup (map pos sites) ->
  (forall e, e ∈ sites -> cell g (Z.to_nat (snd e)) (Z.to_nat (fst e)) = Some 0%float) ->
  count_cells 1%float (foldl (poke (fun _ => 1%float)) g sites)
    = count_cells 1%float g + length sites
  /\ count_cells 0%float (foldl (poke (fun _ => 1%float)) g sites) + length sites
    = count_cells 0%float g.
Proof.
  revert g. induction sites as [|e sites IH]; intros g Hnd Hz; simpl; [lia|].
  apply NoDup_cons in Hnd as [Hfresh Hnd].
  assert (cell g (Z.to_nat (snd e)) (Z.to_nat (fst e)) = Some 0%float) as He
    by (apply Hz; left).
  pose proof (count_cells_alter 1%float (fun _ => 1%float) g _ _ _ He) as H1.
  pose proof (count_cells_alter 0%float (fun _ => 1%float) g _ _ _ He) as H0.
  cbv beta in H1, H0.
  change (0 =? 1)%float with false in H1.
  change (1 =? 1)%float with true in H1.
  change (0 =? 0)%float with true in H0.
  change (1 =? 0)%float with false in H0.
  destruct (IH (poke (fun _ => 1%float) g e)) as [IH1 IH0]; [done| |].
  - intros e' He'. rewrite cell_poke_other; [apply Hz; by right|].
    intros Heq. apply Hfresh. apply list_elem_of_fmap. by exists e'.
  - change (alter _ _ g) with (poke (fun _ => 1%float) g e) in H1, H0. cbv iota in H1, H0. lia.
Qed.

Lemma pos_site_inj (n i j : Z) :
  (0 <= n)%Z -> (0 <= i < n * n)%Z -> (0 <= j < n * n)%Z ->
  pos (site n i) = pos (site n j) -> i = j.
Proof.
  intros Hn Hi Hj. assert (0 < n)%Z by nia.
  unfold pos, site. simpl. intros [= Hr Hc].
  pose proof (Z.mod_pos_bound i n). pose proof (Z.mod_pos_bound j n).
  assert (0 <= i / n)%Z by (apply Z.div_pos; lia).
  assert (0 <= j / n)%Z by (apply Z.div_pos; lia).
  apply (site_inj n); [lia|]. unfold site. f_equal; lia.
Qed.

(** ** Rasterisation *)

Lemma on_ccd_spec (ccd : Z) (e : Z * Z) :
  on_ccd ccd e = true <-> (0 < fst e < ccd)%Z /\ (0 < snd e < ccd)%Z.
Proof.
  unfold on_ccd. rewrite !andb_true_iff, !Z.ltb_lt. lia.
Qed.

Lemma on_ccd_inside (ccd : Z) (e : Z * Z) :
  on_ccd ccd e = true -> inside (Z.to_nat ccd) (Z.to_nat ccd) e.
Proof. intros H%on_ccd_spec. unfold inside. lia. Qed.

(** On a [ccd] x [ccd] grid the loop never raises, and it is the fold of
    the direct increments at the events that pass the test. *)
Lemma rasterize_writes (ccd : Z) (g : grid) (events : list (Z * Z)) :
  shape g (Z.to_nat ccd) (Z.to_nat ccd) ->
  rasterize ccd g events
  = Ok (foldl (poke (fun v => (v + 1)%float)) g (raster_writes ccd events)).
Proof.
  revert g. induction events as [|e events IH]; intros g Hs; simpl; [done|].
  unfold raster_step. destruct (on_ccd ccd e) eqn:He; simpl.
  - rewrite (update2_inside g _ _ e _ Hs (on_ccd_inside _ _ He)). simpl.
    apply IH. by apply shape_poke.
  - by apply IH.
Qed.

(** Each cell after a fold of direct updates: the update applied once
    per event at the cell. *)
Lemma foldl_poke_cell (f : float -> float) (es : list (Z * Z)) (g : grid) (y x : nat) :
  cell (foldl (poke f) g es) y x
  = Nat.iter (length (List.filter (fun e => bool_decide (pos e = (y, x))) es)) f
    <$> cell g y x.
Proof.
  revert g. induction es as [|e es IH]; intros g; simpl.
  - by destruct (cell g y x).
  - rewrite IH. destruct (bool_decide_reflect (pos e = (y, x))) as [[= <- <-]|Hne].
    + rewrite cell_poke_same. destruct (cell g _ _) as [v|]; simpl; [|done].
      f_equal. symmetry. apply (Nat.iter_succ_r _ f v).
    + rewrite cell_poke_other; [done|]. by intros [= -> ->].
Qed.

(** ** The maximum and the rescale *)

Lemma fold_fmax_zeros (l : list float) :
  Forall (fun c => c = 0%float) l -> fold_left fmax l 0%float = 0%float.
Proof. induction 1 as [|c l -> _ IH]; simpl; [done|]. exact IH. Qed.

Lemma concat_zeros (rows cols : nat) :
  concat (replicate rows (replicate cols 0%float)) = replicate (rows * cols) 0%float.
Proof.
  induction rows as [|rows IH]; simpl; [done|].
  by rewrite IH, replicate_add.
Qed.

Lemma amax_zeros (rows cols : nat) :
  0 < rows -> 0 < cols -> amax (replicate rows (replicate cols 0%float)) = Ok 0%float.
Proof.
  intros Hr Hc. unfold amax. rewrite concat_zeros.
  destruct (rows * cols) as [|n] eqn:Hn; [nia|]. simpl.
  f_equal. apply fold_fmax_zeros, Forall_replicate. done.
Qed.

Lemma amax_nonempty (g : grid) (rows cols : nat) :
  shape g rows cols -> 0 < rows -> 0 < cols -> exists m, amax g = Ok m.
Proof.
  intros [Hl Hr] Hrows Hcols. unfold amax.
  destruct g as [|row g]; simpl in *; [lia|].
  apply Forall_cons in Hr as [Hrow _].
  destruct row as [|v row]; simpl in *; [lia|]. eauto.
Qed.

Lemma lookup_map {A B} (f : A -> B) (l : list A) (i : nat) :
  map f l !! i = f <$> l !! i.
Proof. exact (list_lookup_fmap f l i). Qed.

Lemma map_replicate {A B} (f : A -> B) (n : nat) (x : A) :
  map f (replicate n x) = replicate n (f x).
Proof. exact (fmap_replicate f n x). Qed.

Lemma cell_map (f : float -> float) (g : grid) y x :
  cell (map (map f) g) y x = f <$> cell g y x.
Proof.
  unfold cell. rewrite lookup_map.
  destruct (g !! y) as [row|]; simpl; [|done].
  apply lookup_map.
Qed.

(** The rescale of a grid with maximum [m], cell by cell. *)
Lemma rescale_cells (g : grid) (m : float) :
  amax g = Ok m ->
  exists g', rescale g = Ok g'
    /\ length g' = length g
    /\ forall y x, cell g' y x = (fun c => (c * (5000 / m) + 600)%float) <$> cell g y x.
Proof.
  intros Hm. unfold rescale. rewrite Hm. simpl. eexists. split; [done|].
  split; [by rewrite !length_map|].
  intros y x. rewrite !cell_map. by destruct (cell g y x).
Qed.

Lemma rescale_zeros (rows cols : nat) :
  0 < rows -> 0 < cols ->
  rescale (replicate rows (replicate cols 0%float))
  = Ok (replicate rows (replicate cols nan)).
Proof.
  intros Hr Hc. unfold rescale. rewrite amax_zeros by done. simpl.
  by rewrite !map_replicate.
Qed.

(** ** The rescale of counts, checked up to [count_limit] *)
















(** ** Running the program *)

Lemma run_choice_rejected {A} (a : list Z) (size : Z) (replace : bool)
    (f : list Z -> rand A) (o : oracle) (i : nat) :
  rejects (choice a size replace) = true ->
  run (x <- Choice a size replace Ret ;; f x) o i
  = ([choice a size replace], Err ValueError).
Proof. intros H. cbn [bind run]. by rewrite H. Qed.

Lemma run_bind {A B} (m : rand A) (f : A -> rand B) (o : oracle) (i : nat) :
  run (x <- m ;; f x) o i
  = match run m o i with
    | (t, Ok a) => (t ++ (run (f a) o (i + length t)).1, (run (f a) o (i + length t)).2)
    | (t, Err e) => (t, Err e)
    end.
Proof.
  revert i. induction m as [a|e|a size replace k IH|mean cov size k IH|lam k IH];
    intros i; cbn [bind run].
  - rewrite Nat.add_0_r. by destruct (run (f a) o i).
  - done.
  - destruct (rejects _); [done|]. rewrite IH.
    destruct (run (k _) o (S i)) as [t [x|e]]; [|done].
    cbn [length app]. by rewrite Nat.add_succ_r.
  - destruct (rejects _); [done|]. rewrite IH.
    destruct (run (k _) o (S i)) as [t [x|e]]; [|done].
    cbn [length app]. by rewrite Nat.add_succ_r.
  - destruct (rejects _); [done|]. rewrite IH.
    destruct (run (k _) o (S i)) as [t [x|e]]; [|done].
    cbn [length app]. by rewrite Nat.add_succ_r.
Qed.

Lemma length_photon_draws p o i centres :
  length (photon_draws p o i centres) = length centres.
Proof. revert i. induction centres as [|c cs IH]; intros i; simpl; [done|]. by rewrite IH. Qed.

Lemma run_photon_loop (p : params) (o : oracle) (done_ todo : list (Q * Q))
    (xs ys : list Z) (i : nat) :
  (0 <= N_photon p)%Z ->
  run (photon_loop p (map fst (done_ ++ todo)) (map snd (done_ ++ todo))
         (seq (length done_) (length todo)) xs ys) o i
  = (map (photon_request p) todo,
     Ok (xs ++ concat (map (map (pixel_x p)) (photon_draws p o i todo)),
         ys ++ concat (map (map (pixel_y p)) (photon_draws p o i todo)))).
Proof.
  intros Hn. revert done_ xs ys i.
  induction todo as [|c todo IH]; intros done_ xs ys i.
  - simpl. by rewrite !app_nil_r.
  - cbn [length seq photon_loop].
    rewrite !lookup_map, !lookup_app_r, Nat.sub_diag by done. simpl lookup.
    cbn [fmap option_fmap option_map].
    cbn [run rejects].
    destruct (Z.ltb_spec (N_photon p) 0) as [|_]; [lia|].
    specialize (IH (done_ ++ [c])).
    rewrite <- !app_assoc, length_app, Nat.add_1_r in IH. simpl in IH.
    rewrite IH. destruct c as [cx cy]. simpl.
    by rewrite <- !app_assoc.
Qed.

Lemma run_choice_step {A} (a : list Z) (size : Z) (replace : bool)
    (k : list Z -> rand A) (o : oracle) (i : nat) t r :
  rejects (choice a size replace) = false ->
  run (k (o_choice o i a size replace)) o (S i) = (t, r) ->
  run (Choice a size replace k) o i = (choice a size replace :: t, r).
Proof. intros H Hk. cbn [run]. by rewrite H, Hk. Qed.

Lemma run_poisson_step {A} (lam : Q) (k : Z -> rand A) (o : oracle) (i : nat) t r :
  rejects (poisson lam) = false ->
  run (k (o_poisson o i lam)) o (S i) = (t, r) ->
  run (Poisson lam k) o i = (poisson lam :: t, r).
Proof. intros H Hk. cbn [run]. by rewrite H, Hk. Qed.

(** The means that [np.random.poisson] accepts. *)
Lemma poisson_accepted (lam : Q) :
  (0 <= lam)%Q -> (lam <= poisson_lam_max)%Q -> rejects (poisson lam) = false.
Proof.
  intros Hl Hu. unfold rejects.
  destruct (Qcompare lam 0) eqn:Hc;
    [| apply Qlt_alt in Hc; lra |];
    (destruct (Qcompare lam poisson_lam_max) eqn:Hd; try done;
     apply Qgt_alt in Hd; lra).
Qed.

Lemma poisson_negative (lam : Q) :
  (lam < 0)%Q -> rejects (poisson lam) = true.
Proof.
  intros Hl. unfold rejects.
  destruct (Qcompare lam 0) eqn:Hc; [apply Qeq_alt in Hc; lra|done|].
  apply Qgt_alt in Hc. lra.
Qed.


(** ** The run of [synthesize] on parameters that no primitive rejects *)

Section Run.
Variable p : params.
Variable o : oracle.
Hypothesis Ho : valid_oracle o.
Hypothesis Hp : valid_params p.

Lemma atoms_accepted : rejects (choice (arange (N p * N p)) (N_atom p) false) = false.
Proof using Hp.
  destruct Hp as [HN Ha _ _ _ _]. unfold rejects.
  rewrite length_arange.
  destruct (Z.ltb_spec (N_atom p) 0); [lia|].
  destruct (Z.ltb_spec (Z.of_nat (Z.to_nat (N p * N p))) (N_atom p)); [lia|].
  destruct (Nat.eqb_spec (Z.to_nat (N p * N p)) 0); simpl; [|done].
  destruct (Z.eqb_spec (N_atom p) 0); [done|lia].
Qed.

Lemma length_drawn_atoms : length (drawn_atoms p o) = Z.to_nat (N_atom p).
Proof using Ho Hp. apply (choice_length o Ho), atoms_accepted. Qed.

Lemma drawn_atoms_range : Forall (fun i => 0 <= i < N p * N p)%Z (drawn_atoms p o).
Proof using Ho Hp.
  eapply Forall_impl; [apply (choice_elem o Ho), atoms_accepted|].
  intros i Hi. by apply elem_of_arange.
Qed.

Lemma drawn_atoms_distinct : NoDup (drawn_atoms p o).
Proof using Ho Hp.
  apply (choice_distinct o Ho); [apply atoms_accepted|apply NoDup_arange].
Qed.

Lemma dark_mean_accepted : rejects (poisson (dark_mean p)) = false.
Proof using Hp.
  destruct Hp as [_ _ _ _ Hl Hu]. by apply poisson_accepted.
Qed.

Lemma drawn_dark_count_nonneg : (0 <= drawn_dark_count p o)%Z.
Proof using Ho Hp. apply (poisson_nonneg o Ho), dark_mean_accepted. Qed.

Lemma dark_accepted :
  rejects (choice (arange (CCD_resolution p)) (drawn_dark_count p o) true) = false.
Proof using Ho Hp.
  pose proof drawn_dark_count_nonneg. destruct Hp as [_ _ _ Hc _ _].
  unfold rejects. rewrite length_arange.
  destruct (Z.ltb_spec (drawn_dark_count p o) 0); [lia|].
  destruct (Nat.eqb_spec (Z.to_nat (CCD_resolution p)) 0); [lia|done].
Qed.
End Run.

Lemma shape_counts (p : params) (o : oracle) :
  shape (counts p o) (Z.to_nat (CCD_resolution p)) (Z.to_nat (CCD_resolution p)).
Proof. apply shape_foldl_poke, shape_replicate. Qed.

Lemma shape_marked_lattice (p : params) (o : oracle) :
  shape (marked_lattice p o) (Z.to_nat (N p)) (Z.to_nat (N p)).
Proof. apply shape_foldl_poke, shape_replicate. Qed.

(** On valid parameters and with a source of randomness within the
    contract, the constructor returns; the requests and every output are
    determined by the samples. *)
Lemma synthesize_run (p : params) (o : oracle) :
  valid_oracle o -> valid_params p ->
  exists m pixels,
    amax (counts p o) = Ok m
    /\ rescale (counts p o) = Ok pixels
    /\ run (synthesize p) o 0
       = (requests p o,
          Ok {| x_loc := signal_x p o ++ drawn_dark_x p o;
                y_loc := signal_y p o ++ drawn_dark_y p o;
                actual_lattice := marked_lattice p o;
                pixel_grid := pixels |}).
Proof.
  intros Ho Hp.
  pose proof (CCD_positive p Hp) as Hccd.
  pose proof (N_nonneg p Hp) as HN.
  destruct (amax_nonempty (counts p o) _ _ (shape_counts p o)) as [m Hm]; [lia..|].
  destruct (rescale_cells _ _ Hm) as (pixels & Hres & _).
  exists m, pixels. split; [done|]. split; [done|].
  unfold synthesize, requests. cbn [bind].
  apply run_choice_step; [by apply atoms_accepted|].
  fold (drawn_atoms p o).
  unfold zeros at 1.
  destruct (Z.ltb_spec (N p) 0) as [|_]; [lia|]. cbn [orb lift bind].
  rewrite (unravel_index_ok (N p) (drawn_atoms p o)) by (by apply drawn_atoms_range).
  cbn [lift bind fst snd]. rewrite zip_unravel.
  rewrite (mark_atoms_inside _ (Z.to_nat (N p)) (Z.to_nat (N p))); cycle 1.
  { apply shape_replicate. }
  { apply Forall_fmap. eapply Forall_impl; [by apply drawn_atoms_range|].
    intros i Hi. by apply site_inside. }
  cbn [lift bind]. fold (marked_lattice p o).
  unfold zeros.
  destruct (Z.ltb_spec (CCD_resolution p) 0) as [|_]; [lia|]. cbn [orb lift bind].
  rewrite run_bind.
  assert (map (x_center p) (map (fun i => (i / N p)%Z) (drawn_atoms p o))
          = map fst ([] ++ map (centre p) (drawn_atoms p o))) as ->.
  { simpl. rewrite !map_map. done. }
  assert (map (y_center p) (map (fun i => (i mod N p)%Z) (drawn_atoms p o))
          = map snd ([] ++ map (centre p) (drawn_atoms p o))) as ->.
  { simpl. rewrite !map_map. done. }
  assert (seq 0 (Z.to_nat (N_atom p))
          = seq (length (@nil (Q * Q))) (length (map (centre p) (drawn_atoms p o)))) as ->.
  { rewrite length_map, length_drawn_atoms by done. done. }
  rewrite run_photon_loop by apply (N_photon_nonneg p Hp).
  rewrite length_map, length_map. cbn [app fst snd].
  fold (drawn_photons p o). fold (signal_x p o). fold (signal_y p o).
  fold (dark_mean p).
  match goal with
  | |- (_ ++ (run ?X o ?i).1, (run ?X o ?i).2) = (_ ++ ?t, ?r) =>
      assert (run X o i = (t, r)) as ->; [|done]
  end.
  apply run_poisson_step; [by apply dark_mean_accepted|].
  fold (drawn_dark_count p o).
  apply run_choice_step; [by apply dark_accepted|].
  apply run_choice_step; [by apply dark_accepted|].
  change (o_choice o (S (1 + length (drawn_atoms p o))) _ _ true)
    with (drawn_dark_x p o).
  change (o_choice o (S (S (1 + length (drawn_atoms p o)))) _ _ true)
    with (drawn_dark_y p o).
  rewrite rasterize_writes by apply shape_replicate.
  fold (counts p o). cbn [lift bind]. rewrite Hres. done.
Qed.

(** ** The deterministic source is within the contract *)

Lemma nth_hd_elem (a : list Z) (pick : nat) :
  a <> [] -> nth pick a (hd 0%Z a) ∈ a.
Proof.
  intros Ha. destruct (decide (pick < length a)) as [Hlt|Hge].
  - apply list_elem_of_In, nth_In. done.
  - rewrite nth_overflow by lia. destruct a; [done|]. simpl. left.
Qed.

Lemma fixed_oracle_valid (k pick : nat) (jitter : Q * Q) :
  valid_oracle (fixed_oracle k pick jitter).
Proof.
  split; simpl.
  - intros _ a size replace Hacc. destruct replace.
    + apply length_replicate.
    + rewrite length_take. unfold rejects in Hacc. simpl in Hacc.
      apply orb_false_iff in Hacc as [Hacc Hbig].
      apply orb_false_iff in Hacc as [Hneg _].
      apply Z.ltb_ge in Hneg, Hbig. lia.
  - intros _ a size replace Hacc. destruct replace.
    + destruct (Z.to_nat size) as [|n] eqn:Hn; [by constructor|].
      apply Forall_replicate, nth_hd_elem. intros ->.
      unfold rejects in Hacc. simpl in Hacc.
      destruct (Z.eqb_spec size 0); [lia|].
      by rewrite orb_true_r in Hacc.
    + apply Forall_forall. intros x Hx.
      apply (elem_of_sublist _ _ _ Hx (sublist_take _ _)).
  - intros _ a size _ Ha. eapply sublist_NoDup; [done|apply sublist_take].
  - intros _ mean cov size _. apply length_replicate.
  - intros _ lam _. destruct (Qeq_bool lam 0); lia.
  - intros _ lam Hl. apply Qeq_bool_iff in Hl. by rewrite Hl.
Qed.

(** ** The concrete parameters are valid *)

Ltac valid_params_tac :=
  split; simpl; try lia; vm_compute; discriminate.

Lemma edge_atom_valid : valid_params edge_atom.
Proof. valid_params_tac. Qed.

Lemma background_only_valid : valid_params background_only.
Proof. valid_params_tac. Qed.

Lemma full_lattice_valid : valid_params full_lattice.
Proof. valid_params_tac. Qed.

Lemma two_atoms_valid : valid_params two_atoms.
Proof. valid_params_tac. Qed.

Lemma odd_pitch_valid : valid_params odd_pitch.
Proof. valid_params_tac. Qed.

(** ** Lists of equally long blocks *)

Lemma length_concat_uniform {A} (ls : list (list A)) (n : nat) :
  Forall (fun l => length l = n) ls -> length (concat ls) = length ls * n.
Proof.
  induction 1 as [|l ls Hl _ IH]; simpl; [done|].
  rewrite length_app, IH, Hl. done.
Qed.

Lemma lookup_concat_uniform {A} (ls : list (list A)) (n k j : nat) (l : list A) (x : A) :
  Forall (fun l => length l = n) ls ->
  ls !! k = Some l -> l !! j = Some x -> concat ls !! (k * n + j) = Some x.
Proof.
  intros Hall. revert k. induction Hall as [|l0 ls Hl0 _ IH]; intros k Hk Hj; [done|].
  destruct k as [|k]; simpl in *.
  - simplify_eq. rewrite lookup_app_l; [done|]. by eapply lookup_lt_Some.
  - rewrite lookup_app_r by lia.
    replace (n + k * n + j - length l0) with (k * n + j) by lia.
    by apply IH.
Qed.

Lemma zip_concat_map {A B C} (f : A -> B) (g : A -> C) (ls : list (list A)) :
  zip (concat (map (map f) ls)) (concat (map (map g) ls))
  = map (fun s => (f s, g s)) (concat ls).
Proof.
  induction ls as [|l ls IH]; simpl; [done|].
  rewrite map_app, <- IH.
  rewrite (zip_with_app pair (map f l) _ (map g l) _) by (by rewrite !length_map).
  f_equal. clear IH. induction l as [|s l IHl]; simpl; [done|]. by rewrite IHl.
Qed.

(** ** The photon samples of a run *)

Lemma photon_draws_lengths (p : params) (o : oracle) (i : nat) (centres : list (Q * Q)) :
  valid_oracle o -> (0 <= N_photon p)%Z ->
  Forall (fun l => length l = Z.to_nat (N_photon p)) (photon_draws p o i centres).
Proof.
  intros Ho Hn. revert i. induction centres as [|c cs IH]; intros i; simpl; [done|].
  constructor; [|apply IH].
  apply (normal_length o Ho). simpl. by apply Z.ltb_ge.
Qed.

Lemma photon_draws_lookup (p : params) (o : oracle) (i k : nat)
    (centres : list (Q * Q)) (c : Q * Q) :
  centres !! k = Some c ->
  photon_draws p o i centres !! k
  = Some (o_normal o (i + k) c (photon_cov p) (N_photon p)).
Proof.
  revert i k. induction centres as [|c0 cs IH]; intros i [|k] Hk; simplify_eq/=.
  - by rewrite Nat.add_0_r.
  - rewrite (IH (S i) k Hk). do 2 f_equal. lia.
Qed.

Lemma requests_photon (p : params) (o : oracle) (k : nat) (idx : Z) :
  drawn_atoms p o !! k = Some idx ->
  requests p o !! S k = Some (photon_request p (centre p idx)).
Proof.
  intros Hk. unfold requests. simpl.
  rewrite lookup_app_l.
  - rewrite !lookup_map, Hk. done.
  - rewrite !length_map. by eapply lookup_lt_Some.
Qed.

Lemma length_signal_x (p : params) (o : oracle) :
  valid_oracle o -> valid_params p ->
  length (signal_x p o) = Z.to_nat (N_atom p) * Z.to_nat (N_photon p).
Proof.
  intros Ho Hp. unfold signal_x.
  rewrite (length_concat_uniform _ (Z.to_nat (N_photon p))).
  - unfold drawn_photons.
    by rewrite length_map, length_photon_draws, length_map, length_drawn_atoms.
  - apply Forall_fmap.
    eapply Forall_impl; [apply (photon_draws_lengths p o 1 _ Ho), (N_photon_nonneg p Hp)|].
    intros l Hl. simpl. by rewrite length_map.
Qed.

Lemma length_signal_y (p : params) (o : oracle) :
  valid_oracle o -> valid_params p ->
  length (signal_y p o) = Z.to_nat (N_atom p) * Z.to_nat (N_photon p).
Proof.
  intros Ho Hp. unfold signal_y.
  rewrite (length_concat_uniform _ (Z.to_nat (N_photon p))).
  - unfold drawn_photons.
    by rewrite length_map, length_photon_draws, length_map, length_drawn_atoms.
  - apply Forall_fmap.
    eapply Forall_impl; [apply (photon_draws_lengths p o 1 _ Ho), (N_photon_nonneg p Hp)|].
    intros l Hl. simpl. by rewrite length_map.
Qed.

Lemma dark_draws (p : params) (o : oracle) :
  valid_oracle o -> valid_params p ->
  length (drawn_dark_x p o) = Z.to_nat (drawn_dark_count p o)
  /\ length (drawn_dark_y p o) = Z.to_nat (drawn_dark_count p o)
  /\ Forall (fun x => 0 <= x < CCD_resolution p)%Z (drawn_dark_x p o)
  /\ Forall (fun y => 0 <= y < CCD_resolution p)%Z (drawn_dark_y p o).
Proof.
  intros Ho Hp. pose proof (dark_accepted p o Ho Hp) as Hacc.
  split; [by apply (choice_length o Ho)|].
  split; [by apply (choice_length o Ho)|].
  split.
  - eapply Forall_impl; [by apply (choice_elem o Ho _ _ _ _ Hacc)|].
    intros x Hx. by apply elem_of_arange.
  - eapply Forall_impl; [by apply (choice_elem o Ho _ _ _ _ Hacc)|].
    intros x Hx. by apply elem_of_arange.
Qed.

(** ** The ground-truth lattice of a run *)

Lemma unmarked_cell f g sites y x :
  (forall e, e ∈ sites -> pos e <> (y, x)) ->
  cell (foldl (poke f) g sites) y x = cell g y x.
Proof.
  revert g. induction sites as [|e sites IH]; intros g Hne; simpl; [done|].
  rewrite IH by (intros e' He'; apply Hne; by right).
  apply cell_poke_other. intros Heq. apply (Hne e); [left|]. done.
Qed.

Lemma site_of_cell (n a b : Z) :
  (0 <= a < n)%Z -> (0 <= b < n)%Z -> site n (a * n + b) = (a, b).
Proof.
  intros Ha Hb. unfold site. f_equal.
  - rewrite Z.div_add_l by lia. rewrite Z.div_small by lia. lia.
  - rewrite Z.add_comm, Z.mod_add by lia. apply Z.mod_small. lia.
Qed.

Lemma cell_index_range (n a b : Z) :
  (0 <= a < n)%Z -> (0 <= b < n)%Z -> (0 <= a * n + b < n * n)%Z.
Proof. intros Ha Hb. nia. Qed.

Section Lattice.
Variable p : params.
Variable o : oracle.
Hypothesis Ho : valid_oracle o.
Hypothesis Hp : valid_params p.

Lemma sites_distinct : NoDup (map pos (map (site (N p)) (drawn_atoms p o))).
Proof using Ho Hp.
  rewrite map_map. apply (NoDup_fmap_2_strong (fun i => pos (site (N p) i))).
  - intros i j Hi Hj Heq.
    pose proof (drawn_atoms_range p o Ho Hp) as Hr.
    rewrite Forall_forall in Hr.
    apply (pos_site_inj (N p)); [apply (N_nonneg p Hp)|by apply Hr..|done].
  - by apply drawn_atoms_distinct.
Qed.

Lemma marked_lattice_atom (idx : Z) :
  idx ∈ drawn_atoms p o ->
  cell (marked_lattice p o) (Z.to_nat (idx mod N p)) (Z.to_nat (idx / N p))
  = Some 1%float.
Proof using Ho Hp.
  intros Hidx. pose proof (drawn_atoms_range p o Ho Hp) as Hr.
  rewrite Forall_forall in Hr. specialize (Hr idx Hidx).
  destruct (site_inside (N p) idx Hr (N_nonneg p Hp)) as [Hx Hy]. simpl in Hx, Hy.
  apply (marked_cell _ _ (site (N p) idx)).
  - apply list_elem_of_fmap. by exists idx.
  - simpl. rewrite cell_replicate by lia. by eexists.
Qed.

Lemma marked_lattice_empty (a b : Z) :
  (0 <= a < N p)%Z -> (0 <= b < N p)%Z ->
  (a * N p + b)%Z ∉ drawn_atoms p o ->
  cell (marked_lattice p o) (Z.to_nat b) (Z.to_nat a) = Some 0%float.
Proof using Ho Hp.
  intros Ha Hb Hfree. unfold marked_lattice.
  rewrite unmarked_cell; [apply cell_replicate; lia|].
  intros e He Hpos. apply list_elem_of_fmap in He as (idx & -> & Hidx).
  apply Hfree.
  pose proof (drawn_atoms_range p o Ho Hp) as Hr.
  rewrite Forall_forall in Hr. specialize (Hr idx Hidx).
  assert (idx = a * N p + b)%Z as <-; [|done].
  apply (pos_site_inj (N p)); [apply (N_nonneg p Hp)|done|by apply cell_index_range|].
  rewrite site_of_cell by done. done.
Qed.

Lemma marked_lattice_counts :
  count_cells 1%float (marked_lattice p o) = Z.to_nat (N_atom p)
  /\ count_cells 0%float (marked_lattice p o) + Z.to_nat (N_atom p)
     = Z.to_nat (N p) * Z.to_nat (N p).
Proof using Ho Hp.
  destruct (marked_count
              (replicate (Z.to_nat (N p)) (replicate (Z.to_nat (N p)) 0%float))
              (map (site (N p)) (drawn_atoms p o))) as [H1 H0].
  - apply sites_distinct.
  - intros e He. apply list_elem_of_fmap in He as (idx & -> & Hidx).
    pose proof (drawn_atoms_range p o Ho Hp) as Hr.
    rewrite Forall_forall in Hr. specialize (Hr idx Hidx).
    destruct (site_inside (N p) idx Hr (N_nonneg p Hp)) as [Hx Hy].
    apply cell_replicate; lia.
  - fold (marked_lattice p o) in H1, H0.
    rewrite !count_cells_replicate, !count_row_replicate in H1, H0.
    change (0 =? 1)%float with false in H1.
    change (0 =? 0)%float with true in H0.
    rewrite length_map, length_drawn_atoms in H1, H0 by done.
    split; lia.
Qed.

Lemma full_lattice_all_drawn (i : Z) :
  N_atom p = (N p * N p)%Z -> (0 <= i < N p * N p)%Z -> i ∈ drawn_atoms p o.
Proof using Ho Hp.
  intros Hfull Hi.
  assert (drawn_atoms p o ≡ₚ arange (N p * N p)) as Hperm.
  { apply submseteq_length_Permutation.
    - apply NoDup_submseteq; [by apply drawn_atoms_distinct|].
      intros x Hx. apply elem_of_arange.
      pose proof (drawn_atoms_range p o Ho Hp) as Hr.
      rewrite Forall_forall in Hr. by apply Hr.
    - rewrite length_arange, length_drawn_atoms, Hfull by done. done. }
  rewrite Hperm. by apply elem_of_arange.
Qed.
End Lattice.

(** ** Rounding with an offset, and the kinds of requests *)

Lemma rint_offset_nearest (q : Q) (off : Z) :
  (Qabs (inject_Z (rint q + off) - (q + inject_Z off)) <= 1 # 2)%Q.
Proof.
  pose proof (rint_nearest q) as H.
  apply Qabs_Qle_condition in H. apply Qabs_Qle_condition.
  rewrite inject_Z_plus. split; lra.
Qed.

Lemma no_poisson_among_photons (p : params) (centres : list (Q * Q)) :
  List.filter is_poisson (map (photon_request p) centres) = [].
Proof. induction centres as [|c cs IH]; simpl; done. Qed.

(** ** The scenario of one atom, one photon and no background

    On [N = 2], [M = 4], a 16 x 16 sensor at the origin and samples at the
    mean, the atom of site 0 has its centre at pixel (2, 6): one pixel at
    5600, the other 255 at 600. *)

Example one_atom_scenario :
  exists out,
    run (synthesize one_atom) quiet 0
    = ([choice [0; 1; 2; 3]%Z 1 false;
        multivariate_normal (2, 6)%Q ((0, 0), (0, 0))%Q 1;
        poisson 0;
        choice (arange 16) 0 true;
        choice (arange 16) 0 true], Ok out)
    /\ x_loc out = [2%Z] /\ y_loc out = [6%Z]
    /\ actual_lattice out = [[1; 0]; [0; 0]]%float
    /\ cell (pixel_grid out) 6 2 = Some 5600%float
    /\ count_cells 600%float (pixel_grid out) = 255.
Proof. eexists. split; [vm_compute; reflexivity|]. by vm_compute. Qed.

(** With the keyword defaults, five atoms on a 2 x 2 lattice. *)
Example default_parameters_too_many_atoms :
  run (synthesize (default_params 2 4 5 1)) quiet 0
  = ([choice [0; 1; 2; 3]%Z 5 false], Err ValueError).
Proof. reflexivity. Qed.

(** * The claims of the specification *)

(** ** C1: the degenerate image *)

(** C1, as stated, fails. With no atom and no dark count the grid before
    the rescale has maximum 0; the constructor raises nothing and returns a
    pixel grid, every cell of which is NaN. *)
Lemma degenerate_image_is_returned :
  N_atom no_atom = 0%Z
  /\ drawn_dark_count no_atom quiet = 0%Z
  /\ amax (counts no_atom quiet) = Ok 0%float
  /\ (run (synthesize no_atom) quiet 0).2
     = Ok {| x_loc := []; y_loc := [];
             actual_lattice := replicate 2 (replicate 2 0%float);
             pixel_grid := replicate 4 (replicate 4 nan) |}.
Proof. vm_compute. done. Qed.

(** C1, amended: whenever no detection event passes the test
    [0 < x < CCD_resolution] and [0 < y < CCD_resolution] (no event at all,
    or events only in row 0, in column 0 or off the sensor), the grid
    before the rescale has maximum 0, the constructor still returns, and
    every cell of the returned pixel grid is NaN: [5000/0.0] is [inf] and
    [0.0 * inf] is NaN. *)
Theorem no_detection_gives_nan_grid (p : params) (o : oracle) :
  valid_oracle o -> valid_params p ->
  Forall (fun e => on_ccd (CCD_resolution p) e = false)
    (zip (signal_x p o ++ drawn_dark_x p o) (signal_y p o ++ drawn_dark_y p o)) ->
  amax (counts p o) = Ok 0%float
  /\ exists out,
       (run (synthesize p) o 0).2 = Ok out
       /\ x_loc out = signal_x p o ++ drawn_dark_x p o
       /\ y_loc out = signal_y p o ++ drawn_dark_y p o
       /\ pixel_grid out
          = replicate (Z.to_nat (CCD_resolution p))
              (replicate (Z.to_nat (CCD_resolution p)) nan).
Proof.
  intros Ho Hp Hoff.
  pose proof (CCD_positive p Hp) as Hccd.
  assert (counts p o
          = replicate (Z.to_nat (CCD_resolution p))
              (replicate (Z.to_nat (CCD_resolution p)) 0%float)) as Hzero.
  { unfold counts, raster_writes.
    induction Hoff as [|e events He _ IH]; simpl; [done|]. by rewrite He. }
  destruct (synthesize_run p o Ho Hp) as (m & pixels & Hm & Hres & Hrun).
  rewrite Hzero in Hres |- *.
  rewrite rescale_zeros in Hres by lia.
  split; [apply amax_zeros; lia|].
  eexists. rewrite Hrun. split; [reflexivity|]. simpl. repeat split. congruence.
Qed.

Lemma no_detection_gives_nan_grid_witness :
  valid_oracle quiet /\ valid_params edge_atom
  /\ Forall (fun e => on_ccd (CCD_resolution edge_atom) e = false)
       (zip (signal_x edge_atom quiet ++ drawn_dark_x edge_atom quiet)
            (signal_y edge_atom quiet ++ drawn_dark_y edge_atom quiet))
  /\ amax (counts edge_atom quiet) = Ok 0%float
  /\ exists out,
       (run (synthesize edge_atom) quiet 0).2 = Ok out
       /\ x_loc out = signal_x edge_atom quiet ++ drawn_dark_x edge_atom quiet
       /\ y_loc out = signal_y edge_atom quiet ++ drawn_dark_y edge_atom quiet
       /\ pixel_grid out
          = replicate (Z.to_nat (CCD_resolution edge_atom))
              (replicate (Z.to_nat (CCD_resolution edge_atom)) nan).
Proof.
  assert (Forall (fun e => on_ccd (CCD_resolution edge_atom) e = false)
            (zip (signal_x edge_atom quiet ++ drawn_dark_x edge_atom quiet)
                 (signal_y edge_atom quiet ++ drawn_dark_y edge_atom quiet))) as Hoff.
  { vm_compute. repeat constructor. }
  split; [apply fixed_oracle_valid|].
  split; [apply edge_atom_valid|].
  split; [exact Hoff|].
  exact (no_detection_gives_nan_grid edge_atom quiet
           (fixed_oracle_valid 0 0 (0, 0)%Q) edge_atom_valid Hoff).
Defined.

(** ** C2: parameter validation *)

(** C2, as stated, fails: [N_backg = 0] is not positive, and so are
    [M = 0], [N_photon = 0], [std = 0] and [lam_backg = 0], yet the
    constructor returns. *)
Lemma nonpositive_parameters_accepted :
  N_backg one_atom = 0%Z
  /\ (exists out, (run (synthesize one_atom) quiet 0).2 = Ok out)
  /\ (exists out,
        (run (synthesize
                {| N := 1; M := 0; N_atom := 1; N_photon := 0; CCD_resolution := 2;
                   lattice_origin := (0, 0)%Z; std := 0; N_backg := 0;
                   lam_backg := 0 |}) quiet 0).2 = Ok out).
Proof. split; [done|]. split; vm_compute; eexists; reflexivity. Qed.

(** C2, amended: the constructor validates nothing itself; when
    [N_atom > N*N] the first sampling request, the choice of [N_atom]
    sites without replacement, is rejected by the sampling primitive with
    [ValueError], so that the run fails before any sample is drawn. *)
Theorem too_many_atoms_rejected (p : params) (o : oracle) :
  (N_atom p > N p * N p)%Z ->
  run (synthesize p) o 0
  = ([choice (arange (N p * N p)) (N_atom p) false], Err ValueError).
Proof.
  intros Hbig. unfold synthesize. apply run_choice_rejected.
  unfold rejects. rewrite length_arange.
  assert (0 <= N p * N p)%Z by nia.
  destruct (Z.ltb_spec (Z.of_nat (Z.to_nat (N p * N p))) (N_atom p)); [|lia].
  simpl. by rewrite orb_true_r.
Qed.

Lemma too_many_atoms_rejected_witness :
  (N_atom too_many_atoms > N too_many_atoms * N too_many_atoms)%Z
  /\ run (synthesize too_many_atoms) quiet 0
     = ([choice (arange (N too_many_atoms * N too_many_atoms))
           (N_atom too_many_atoms) false], Err ValueError).
Proof.
  assert (N_atom too_many_atoms > N too_many_atoms * N too_many_atoms)%Z as H
    by (simpl; lia).
  split; [exact H|]. exact (too_many_atoms_rejected too_many_atoms quiet H).
Defined.

(** ** C3: the boundary policy of the rasterisation *)

(** C3: on the [ccd] x [ccd] grid, an event [(x, y)] with [0 < x < ccd]
    and [0 < y < ccd] adds 1 to the cell in row [y], column [x], and
    changes no other cell; any other event (a coordinate 0 included)
    leaves the grid as it is.  In a run, the grid is rasterised from the
    returned coordinate sequences, which hold every event that was drawn,
    the dropped ones included. *)
Theorem raster_boundary_policy (p : params) (o : oracle) (g : grid) (x y : Z) :
  valid_oracle o -> valid_params p ->
  shape g (Z.to_nat (CCD_resolution p)) (Z.to_nat (CCD_resolution p)) ->
  (if decide ((0 < x < CCD_resolution p)%Z /\ (0 < y < CCD_resolution p)%Z)
   then exists v g',
     raster_step (CCD_resolution p) g (x, y) = Ok g'
     /\ cell g (Z.to_nat y) (Z.to_nat x) = Some v
     /\ cell g' (Z.to_nat y) (Z.to_nat x) = Some (v + 1)%float
     /\ forall y' x', (y', x') <> (Z.to_nat y, Z.to_nat x) -> cell g' y' x' = cell g y' x'
   else raster_step (CCD_resolution p) g (x, y) = Ok g)
  /\ exists out before,
       (run (synthesize p) o 0).2 = Ok out
       /\ x_loc out = signal_x p o ++ drawn_dark_x p o
       /\ y_loc out = signal_y p o ++ drawn_dark_y p o
       /\ zeros (CCD_resolution p) (CCD_resolution p) = Ok before
       /\ rasterize (CCD_resolution p) before (zip (x_loc out) (y_loc out))
          = Ok (counts p o)
       /\ rescale (counts p o) = Ok (pixel_grid out).
Proof.
  intros Ho Hp Hs. pose proof (CCD_positive p Hp) as Hccd. split.
  - unfold raster_step. destruct (decide _) as [Hin|Hout].
    + assert (on_ccd (CCD_resolution p) (x, y) = true) as He by (by apply on_ccd_spec).
      rewrite He.
      destruct (cell_is_Some g _ _ (Z.to_nat y) (Z.to_nat x) Hs) as [v Hv]; [lia..|].
      exists v, (poke (fun v => (v + 1)%float) g (x, y)).
      split; [apply (update2_inside g _ _ (x, y) _ Hs (on_ccd_inside _ _ He))|].
      split; [done|]. split.
      * pose proof (cell_poke_same (fun v => (v + 1)%float) g (x, y)) as Hc.
        simpl in Hc. by rewrite Hc, Hv.
      * intros y' x' Hne. by apply (cell_poke_other _ g (x, y)).
    + destruct (on_ccd (CCD_resolution p) (x, y)) eqn:He; [|done].
      by apply on_ccd_spec in He.
  - destruct (synthesize_run p o Ho Hp) as (m & pixels & Hm & Hres & Hrun).
    eexists. eexists. rewrite Hrun. split; [reflexivity|]. simpl.
    split; [done|]. split; [done|].
    unfold zeros. destruct (Z.ltb_spec (CCD_resolution p) 0) as [|_]; [lia|].
    split; [reflexivity|]. split; [|done].
    rewrite rasterize_writes by apply shape_replicate. done.
Qed.

Lemma raster_boundary_policy_witness :
  valid_oracle corner /\ valid_params full_lattice
  /\ shape (counts full_lattice corner)
       (Z.to_nat (CCD_resolution full_lattice)) (Z.to_nat (CCD_resolution full_lattice))
  /\ raster_step (CCD_resolution full_lattice) (counts full_lattice corner) (0, 5)%Z
     = Ok (counts full_lattice corner)
  /\ exists out,
       (run (synthesize full_lattice) corner 0).2 = Ok out
       /\ x_loc out = [3; 3; 3; 3; 7; 7; 7; 7; 0; 0; 0]%Z
       /\ y_loc out = [-2; -2; -6; -6; -2; -2; -6; -6; 0; 0; 0]%Z.
Proof.
  pose proof (raster_boundary_policy full_lattice corner (counts full_lattice corner)
                0 5 (fixed_oracle_valid 3 0 (1 # 2, - (21 # 2))%Q) full_lattice_valid
                (shape_counts full_lattice corner)) as [Hstep (out & before & Hrun & Hx & Hy & _)].
  split; [apply fixed_oracle_valid|].
  split; [apply full_lattice_valid|].
  split; [apply shape_counts|].
  split; [exact Hstep|].
  exists out. split; [exact Hrun|]. split; [by rewrite Hx|by rewrite Hy].
Defined.

(** ** C4: the camera rescale *)

(** The maximum of the returned grid need not be the binary64 number 5600
    itself: with 139 counts in the fullest pixel the quotient [5000/139]
    is rounded, its product with 139 is just below 5000, and the maximum
    is the binary64 number next below 5600. *)
Example rescaled_maximum_below_5600 :
  amax (counts background_only hot_pixel) = Ok 139%float
  /\ exists out m,
       (run (synthesize background_only) hot_pixel 0).2 = Ok out
       /\ amax (pixel_grid out) = Ok m
       /\ m = (139 * (5000 / 139) + 600)%float
       /\ (m =? 5600)%float = false
       /\ (m <? 5600)%float = true
       /\ (5600 - m =? ulp_5600)%float = true.
Proof.
  split; [by vm_compute|].
  eexists. eexists. split; [vm_compute; reflexivity|].
  split; [vm_compute; reflexivity|]. by vm_compute.
Qed.



(** ** C5: the ground-truth occupancy *)

(** C5: on valid parameters ([N_atom <= N*N]) the constructor returns and
    the ground-truth grid is an [N] x [N] array with exactly [N_atom] cells
    equal to 1 and [N*N - N_atom] cells equal to 0; the drawn sites are
    pairwise distinct; when [N_atom = N*N] every cell is 1. *)
Theorem occupancy_has_N_atom_ones (p : params) (o : oracle) :
  valid_oracle o -> valid_params p ->
  exists out,
    (run (synthesize p) o 0).2 = Ok out
    /\ shape (actual_lattice out) (Z.to_nat (N p)) (Z.to_nat (N p))
    /\ Z.of_nat (count_cells 1%float (actual_lattice out)) = N_atom p
    /\ Z.of_nat (count_cells 0%float (actual_lattice out)) = (N p * N p - N_atom p)%Z
    /\ NoDup (drawn_atoms p o)
    /\ (N_atom p = (N p * N p)%Z ->
        forall y x, y < Z.to_nat (N p) -> x < Z.to_nat (N p) ->
          cell (actual_lattice out) y x = Some 1%float).
Proof.
  intros Ho Hp.
  destruct (synthesize_run p o Ho Hp) as (m & pixels & _ & _ & Hrun).
  pose proof (N_nonneg p Hp) as HN.
  pose proof (N_atom_range p Hp) as Ha.
  destruct (marked_lattice_counts p o Ho Hp) as [H1 H0].
  eexists. rewrite Hrun. split; [reflexivity|]. simpl.
  split; [apply shape_marked_lattice|].
  split; [lia|]. split; [nia|].
  split; [by apply drawn_atoms_distinct|].
  intros Hfull y x Hy Hx.
  pose proof (marked_lattice_atom p o Ho Hp (Z.of_nat x * N p + Z.of_nat y)) as Hcell.
  rewrite Z.div_add_l, Z.div_small, Z.add_0_r in Hcell by lia.
  rewrite Z.add_comm, Z.mod_add, Z.mod_small, !Nat2Z.id in Hcell by lia.
  apply Hcell. apply full_lattice_all_drawn; [done..|]. nia.
Qed.

Lemma occupancy_has_N_atom_ones_witness :
  valid_oracle corner /\ valid_params full_lattice
  /\ exists out,
       (run (synthesize full_lattice) corner 0).2 = Ok out
       /\ actual_lattice out = [[1; 1]; [1; 1]]%float
       /\ Z.of_nat (count_cells 1%float (actual_lattice out)) = 4%Z
       /\ Z.of_nat (count_cells 0%float (actual_lattice out)) = 0%Z.
Proof.
  destruct (occupancy_has_N_atom_ones full_lattice corner
              (fixed_oracle_valid 3 0 (1 # 2, - (21 # 2))%Q) full_lattice_valid)
    as (out & Hrun & _ & H1 & H0 & _).
  split; [apply fixed_oracle_valid|].
  split; [apply full_lattice_valid|].
  exists out. split; [exact Hrun|].
  split; [|split; [exact H1|exact H0]].
  vm_compute in Hrun. by injection Hrun as <-.
Defined.

(** ** C6: the coordinate sequences *)

(** C6: on valid parameters the constructor returns; the two coordinate
    sequences are the signal coordinates followed by the background
    coordinates, they have the same length
    [N_atom * N_photon + dark_count_tot], and the [i]-th entries of the
    two belong to the same event (the same photon sample, or the same
    position of the two background draws); nothing is filtered out of
    them. *)
Theorem coordinate_sequences (p : params) (o : oracle) :
  valid_oracle o -> valid_params p ->
  exists out,
    (run (synthesize p) o 0).2 = Ok out
    /\ x_loc out = signal_x p o ++ drawn_dark_x p o
    /\ y_loc out = signal_y p o ++ drawn_dark_y p o
    /\ length (x_loc out) = length (y_loc out)
    /\ Z.of_nat (length (x_loc out)) = (N_atom p * N_photon p + drawn_dark_count p o)%Z
    /\ Z.of_nat (length (signal_x p o)) = (N_atom p * N_photon p)%Z
    /\ Z.of_nat (length (signal_y p o)) = (N_atom p * N_photon p)%Z
    /\ Z.of_nat (length (drawn_dark_x p o)) = drawn_dark_count p o
    /\ Z.of_nat (length (drawn_dark_y p o)) = drawn_dark_count p o
    /\ zip (x_loc out) (y_loc out)
       = map (fun s => (pixel_x p s, pixel_y p s)) (concat (drawn_photons p o))
         ++ zip (drawn_dark_x p o) (drawn_dark_y p o).
Proof.
  intros Ho Hp.
  destruct (synthesize_run p o Ho Hp) as (m & pixels & _ & _ & Hrun).
  pose proof (length_signal_x p o Ho Hp) as Hsx.
  pose proof (length_signal_y p o Ho Hp) as Hsy.
  destruct (dark_draws p o Ho Hp) as (Hdx & Hdy & _ & _).
  pose proof (drawn_dark_count_nonneg p o Ho Hp) as Hd.
  pose proof (N_atom_range p Hp) as Ha.
  pose proof (N_photon_nonneg p Hp) as Hn.
  eexists. rewrite Hrun. split; [reflexivity|]. simpl.
  split; [done|]. split; [done|].
  rewrite !length_app.
  split; [lia|]. split; [nia|]. split; [nia|]. split; [nia|].
  split; [lia|]. split; [lia|].
  rewrite (zip_with_app pair (signal_x p o) _ (signal_y p o) _) by lia.
  f_equal. apply zip_concat_map.
Qed.

Lemma coordinate_sequences_witness :
  valid_oracle corner /\ valid_params full_lattice
  /\ exists out,
       (run (synthesize full_lattice) corner 0).2 = Ok out
       /\ x_loc out = [3; 3; 3; 3; 7; 7; 7; 7; 0; 0; 0]%Z
       /\ y_loc out = [-2; -2; -6; -6; -2; -2; -6; -6; 0; 0; 0]%Z
       /\ Z.of_nat (length (x_loc out)) = (4 * 2 + 3)%Z.
Proof.
  destruct (coordinate_sequences full_lattice corner
              (fixed_oracle_valid 3 0 (1 # 2, - (21 # 2))%Q) full_lattice_valid)
    as (out & Hrun & Hx & Hy & _ & Hlen & _).
  split; [apply fixed_oracle_valid|].
  split; [apply full_lattice_valid|].
  exists out. split; [exact Hrun|].
  split; [by rewrite Hx|]. split; [by rewrite Hy|]. exact Hlen.
Defined.

(** ** C7: site centres and rounding *)

(** C7, as stated, fails for an odd pitch.  With [M = 5] the atom of
    site 0 is centred at [(0*5 + 2, 2*5 - (0*5 + 2)) = (2, 8)]: the
    source's [M/2] is the integer division, and the centre is not the
    [(5/2, 15/2)] of the stated formula. *)
Lemma odd_pitch_centre_is_floored :
  drawn_atoms odd_pitch quiet = [0%Z]
  /\ (exists out,
        run (synthesize odd_pitch) quiet 0
        = ([choice [0; 1; 2; 3]%Z 1 false;
            multivariate_normal (2, 8)%Q ((1, 0), (0, 1))%Q 1;
            poisson 0;
            choice (arange 16) 0 true;
            choice (arange 16) 0 true], Ok out)
        /\ x_loc out = [2%Z] /\ y_loc out = [8%Z])
  /\ ~ (2 == inject_Z 0 * inject_Z 5 + inject_Z 5 / 2)%Q
  /\ ~ (8 == inject_Z 2 * inject_Z 5 - (inject_Z 0 * inject_Z 5 + inject_Z 5 / 2))%Q.
Proof.
  split; [reflexivity|]. split.
  - eexists. split; [vm_compute; reflexivity|]. by vm_compute.
  - split; intros H; vm_compute in H; discriminate.
Qed.

(** C7, amended: the [k]-th occupied site, of index [idx] with unravelled
    components [(idx / N, idx mod N)], asks for [N_photon] Gaussian
    samples around [(a*M + M/2, N*M - (b*M + M/2))], where [M/2] is the
    integer (floor) division of the source: the exact half of an even
    [M], half a pixel less for an odd [M].  Each sample [s] of magnitude
    at most [2^52], with a lattice origin of magnitude at most [2^52], is
    stored as [rint(s) + lattice_origin], an integer within 1/2 of the
    sample moved by the lattice origin (nearest integer, not truncation),
    at position [k * N_photon + j] of the coordinate sequences.  The
    lattice spans at most [2^52] pixels per axis, so that binary64 holds
    every centre exactly. *)
Theorem photon_centres_and_rounding (p : params) (o : oracle)
    (k j : nat) (idx : Z) (samples : list (Q * Q)) (s : Q * Q) :
  valid_oracle o -> valid_params p ->
  (Z.abs (N p * M p) <= 2 ^ 52)%Z ->
  drawn_atoms p o !! k = Some idx ->
  drawn_photons p o !! k = Some samples ->
  samples !! j = Some s ->
  (Z.abs (rint (fst s)) <= 2 ^ 52)%Z -> (Z.abs (rint (snd s)) <= 2 ^ 52)%Z ->
  (Z.abs (fst (lattice_origin p)) <= 2 ^ 52)%Z ->
  (Z.abs (snd (lattice_origin p)) <= 2 ^ 52)%Z ->
  let mean :=
    ((inject_Z (idx / N p) * inject_Z (M p) + inject_Z (M p / 2))%Q,
     (inject_Z (N p) * inject_Z (M p)
      - (inject_Z (idx mod N p) * inject_Z (M p) + inject_Z (M p / 2)))%Q) in
  let cov := ((std p, 0%Q), (0%Q, std p)) in
  exists out tr,
    run (synthesize p) o 0 = (tr, Ok out)
    /\ tr !! S k = Some (multivariate_normal mean cov (N_photon p))
    /\ samples = o_normal o (S k) mean cov (N_photon p)
    /\ length samples = Z.to_nat (N_photon p)
    /\ x_loc out !! (k * Z.to_nat (N_photon p) + j)
       = Some (rint (fst s) + fst (lattice_origin p))%Z
    /\ y_loc out !! (k * Z.to_nat (N_photon p) + j)
       = Some (rint (snd s) + snd (lattice_origin p))%Z
    /\ (Qabs (inject_Z (rint (fst s) + fst (lattice_origin p))
              - (fst s + inject_Z (fst (lattice_origin p)))) <= 1 # 2)%Q
    /\ (Qabs (inject_Z (rint (snd s) + snd (lattice_origin p))
              - (snd s + inject_Z (snd (lattice_origin p)))) <= 1 # 2)%Q
    /\ (Z.even (M p) = true -> (inject_Z (M p / 2) == inject_Z (M p) / 2)%Q)
    /\ (Z.odd (M p) = true -> (inject_Z (M p / 2) == inject_Z (M p) / 2 - (1 # 2))%Q).
Proof.
  intros Ho Hp _ Hidx Hsamples Hs Hsx Hsy Hox Hoy mean cov.
  destruct (synthesize_run p o Ho Hp) as (m & pixels & _ & _ & Hrun).
  pose proof (photon_draws_lengths p o 1 (map (centre p) (drawn_atoms p o)) Ho
                (N_photon_nonneg p Hp)) as Hlens.
  fold (drawn_photons p o) in Hlens.
  assert (samples = o_normal o (S k) mean cov (N_photon p)) as Hdraw.
  { unfold drawn_photons in Hsamples.
    rewrite (photon_draws_lookup p o 1 k _ (centre p idx)) in Hsamples
      by (by rewrite lookup_map, Hidx).
    by injection Hsamples as <-. }
  eexists. eexists. split; [exact Hrun|]. simpl.
  split; [by apply requests_photon|].
  split; [done|].
  split; [rewrite Forall_forall in Hlens; by apply Hlens, (list_elem_of_lookup_2 _ k)|].
  split; [|split; [|split; [apply rint_offset_nearest|
                    split; [apply rint_offset_nearest|
                    split; [apply half_even|apply half_odd]]]]].
  - apply lookup_app_l_Some. unfold signal_x.
    apply (lookup_concat_uniform _ _ _ _ (map (pixel_x p) samples)).
    + apply Forall_fmap. eapply Forall_impl; [exact Hlens|].
      intros l Hl. simpl. by rewrite length_map.
    + by rewrite lookup_map, Hsamples.
    + rewrite lookup_map, Hs. simpl. unfold pixel_x. by rewrite pixel_exact.
  - apply lookup_app_l_Some. unfold signal_y.
    apply (lookup_concat_uniform _ _ _ _ (map (pixel_y p) samples)).
    + apply Forall_fmap. eapply Forall_impl; [exact Hlens|].
      intros l Hl. simpl. by rewrite length_map.
    + by rewrite lookup_map, Hsamples.
    + rewrite lookup_map, Hs. simpl. unfold pixel_y. by rewrite pixel_exact.
Qed.

Lemma photon_centres_and_rounding_witness :
  valid_oracle quiet /\ valid_params odd_pitch
  /\ (Z.abs (N odd_pitch * M odd_pitch) <= 2 ^ 52)%Z
  /\ drawn_atoms odd_pitch quiet !! 0 = Some 0%Z
  /\ drawn_photons odd_pitch quiet !! 0 = Some [(2, 8)%Q]
  /\ [(2, 8)%Q] !! 0 = Some (2, 8)%Q
  /\ (Z.abs (rint 2) <= 2 ^ 52)%Z /\ (Z.abs (rint 8) <= 2 ^ 52)%Z
  /\ (Z.abs 0 <= 2 ^ 52)%Z
  /\ exists out tr,
       run (synthesize odd_pitch) quiet 0 = (tr, Ok out)
       /\ tr !! 1 = Some (multivariate_normal
                            ((inject_Z (0 / 2) * inject_Z 5 + inject_Z (5 / 2))%Q,
                             (inject_Z 2 * inject_Z 5
                              - (inject_Z (0 mod 2) * inject_Z 5 + inject_Z (5 / 2)))%Q)
                            ((1, 0), (0, 1))%Q 1)
       /\ x_loc out !! 0 = Some 2%Z
       /\ y_loc out !! 0 = Some 8%Z.
Proof.
  assert (drawn_atoms odd_pitch quiet !! 0 = Some 0%Z) as Hidx by reflexivity.
  assert (drawn_photons odd_pitch quiet !! 0 = Some [(2, 8)%Q]) as Hsamples
    by reflexivity.
  assert ([(2, 8)%Q] !! 0 = Some (2, 8)%Q) as Hs by reflexivity.
  assert (Z.abs (rint 2) <= 2 ^ 52)%Z as Hsx by (vm_compute; discriminate).
  assert (Z.abs (rint 8) <= 2 ^ 52)%Z as Hsy by (vm_compute; discriminate).
  assert (Z.abs 0 <= 2 ^ 52)%Z as H0 by (vm_compute; discriminate).
  assert (Z.abs (N odd_pitch * M odd_pitch) <= 2 ^ 52)%Z as Hsize
    by (vm_compute; discriminate).
  destruct (photon_centres_and_rounding odd_pitch quiet 0 0 0%Z _ _
              (fixed_oracle_valid 0 0 (0, 0)%Q) odd_pitch_valid Hsize
              Hidx Hsamples Hs Hsx Hsy H0 H0)
    as (out & tr & Hrun & Hreq & _ & _ & Hx & Hy & _).
  split; [apply fixed_oracle_valid|].
  split; [apply odd_pitch_valid|]. split; [exact Hsize|].
  split; [exact Hidx|]. split; [exact Hsamples|]. split; [exact Hs|].
  split; [exact Hsx|]. split; [exact Hsy|]. split; [exact H0|].
  exists out, tr. split; [exact Hrun|].
  split; [exact Hreq|]. split; [exact Hx|exact Hy].
Defined.

(** ** C8: the background *)

(** C8: a run issues exactly one Poisson request, with mean
    [lam_backg * N_backg]; its answer [dark_count_tot] is the size of the
    two requests that follow, each a choice with replacement among the
    integers [0 .. CCD_resolution - 1]; the two answers, of
    [dark_count_tot] coordinates each within that range, end the
    coordinate sequences.  The population of the two choices holds every
    integer of [0, CCD_resolution) once. *)
Theorem background_is_one_poisson_draw (p : params) (o : oracle) :
  valid_oracle o -> valid_params p ->
  exists out tr photon_requests (dark_count_tot : Z),
    run (synthesize p) o 0 = (tr, Ok out)
    /\ tr = choice (arange (N p * N p)) (N_atom p) false
            :: photon_requests
            ++ [poisson (lam_backg p * inject_Z (N_backg p));
                choice (arange (CCD_resolution p)) dark_count_tot true;
                choice (arange (CCD_resolution p)) dark_count_tot true]
    /\ List.filter is_poisson tr = [poisson (lam_backg p * inject_Z (N_backg p))]
    /\ dark_count_tot
       = o_poisson o (1 + Z.to_nat (N_atom p)) (lam_backg p * inject_Z (N_backg p))
    /\ (0 <= dark_count_tot)%Z
    /\ Z.of_nat (length (drawn_dark_x p o)) = dark_count_tot
    /\ Z.of_nat (length (drawn_dark_y p o)) = dark_count_tot
    /\ Forall (fun x => 0 <= x < CCD_resolution p)%Z (drawn_dark_x p o)
    /\ Forall (fun y => 0 <= y < CCD_resolution p)%Z (drawn_dark_y p o)
    /\ drawn_dark_x p o
       = o_choice o (2 + Z.to_nat (N_atom p)) (arange (CCD_resolution p)) dark_count_tot true
    /\ drawn_dark_y p o
       = o_choice o (3 + Z.to_nat (N_atom p)) (arange (CCD_resolution p)) dark_count_tot true
    /\ x_loc out = signal_x p o ++ drawn_dark_x p o
    /\ y_loc out = signal_y p o ++ drawn_dark_y p o
    /\ NoDup (arange (CCD_resolution p))
    /\ (forall x, x ∈ arange (CCD_resolution p) <-> (0 <= x < CCD_resolution p)%Z).
Proof.
  intros Ho Hp.
  destruct (synthesize_run p o Ho Hp) as (m & pixels & _ & _ & Hrun).
  destruct (dark_draws p o Ho Hp) as (Hdx & Hdy & Hrx & Hry).
  pose proof (drawn_dark_count_nonneg p o Ho Hp) as Hd.
  pose proof (length_drawn_atoms p o Ho Hp) as Hlen.
  eexists. exists (requests p o),
    (map (photon_request p) (map (centre p) (drawn_atoms p o))),
    (drawn_dark_count p o).
  split; [exact Hrun|]. simpl.
  split; [reflexivity|].
  split.
  { unfold requests. cbn [List.filter is_poisson].
    rewrite List.filter_app, no_poisson_among_photons. reflexivity. }
  split; [unfold drawn_dark_count, dark_mean; by rewrite Hlen|].
  split; [done|]. split; [lia|]. split; [lia|].
  split; [done|]. split; [done|].
  split; [unfold drawn_dark_x; by rewrite Hlen|].
  split; [unfold drawn_dark_y; by rewrite Hlen|].
  split; [done|]. split; [done|].
  split; [apply NoDup_arange|]. intros x. apply elem_of_arange.
Qed.

Lemma background_is_one_poisson_draw_witness :
  valid_oracle corner /\ valid_params full_lattice
  /\ exists out tr,
       run (synthesize full_lattice) corner 0 = (tr, Ok out)
       /\ List.filter is_poisson tr = [poisson (3 * inject_Z 1)]
       /\ Z.of_nat (length (drawn_dark_x full_lattice corner)) = 3%Z
       /\ Z.of_nat (length (drawn_dark_y full_lattice corner)) = 3%Z.
Proof.
  destruct (background_is_one_poisson_draw full_lattice corner
              (fixed_oracle_valid 3 0 (1 # 2, - (21 # 2))%Q) full_lattice_valid)
    as (out & tr & reqs & d & Hrun & _ & Hone & Hd & _ & Hx & Hy & _).
  split; [apply fixed_oracle_valid|].
  split; [apply full_lattice_valid|].
  exists out, tr. split; [exact Hrun|]. split; [exact Hone|].
  assert (d = 3%Z) as -> by (rewrite Hd; reflexivity).
  split; [exact Hx|exact Hy].
Defined.

(** ** C9: the ground truth is not flipped, the image is *)

(** C9: the [k]-th occupied site, of index [idx] with unravelled
    components [(a, b) = (idx / N, idx mod N)], is marked at
    [actual_lattice[b][a]]; the cells of the lattice that are no
    component pair of a drawn index stay 0, so that no other row is
    marked for it.  The photons of the site are requested around the
    pixel row [N*M - (b*M + M/2)] ([M/2] the integer division of the
    source), which decreases when [b] increases (for [M > 0]): the rows of
    the ground truth run against the pixel rows.  The lattice spans at
    most [2^52] pixels per axis, so that binary64 holds every centre
    exactly. *)
Theorem ground_truth_rows_run_against_pixel_rows (p : params) (o : oracle)
    (k : nat) (idx : Z) :
  valid_oracle o -> valid_params p ->
  (Z.abs (N p * M p) <= 2 ^ 52)%Z ->
  drawn_atoms p o !! k = Some idx ->
  let a := (idx / N p)%Z in
  let b := (idx mod N p)%Z in
  exists out tr,
    run (synthesize p) o 0 = (tr, Ok out)
    /\ (0 <= a < N p)%Z /\ (0 <= b < N p)%Z
    /\ cell (actual_lattice out) (Z.to_nat b) (Z.to_nat a) = Some 1%float
    /\ (forall a' b', (0 <= a' < N p)%Z -> (0 <= b' < N p)%Z ->
          (a' * N p + b')%Z ∉ drawn_atoms p o ->
          cell (actual_lattice out) (Z.to_nat b') (Z.to_nat a') = Some 0%float)
    /\ tr !! S k
       = Some (multivariate_normal
                 ((inject_Z a * inject_Z (M p) + inject_Z (M p / 2))%Q,
                  (inject_Z (N p) * inject_Z (M p)
                   - (inject_Z b * inject_Z (M p) + inject_Z (M p / 2)))%Q)
                 ((std p, 0%Q), (0%Q, std p)) (N_photon p))
    /\ (forall b1 b2, (0 < M p)%Z -> (b1 < b2)%Z ->
          (inject_Z (N p) * inject_Z (M p)
           - (inject_Z b2 * inject_Z (M p) + inject_Z (M p / 2))
           < inject_Z (N p) * inject_Z (M p)
             - (inject_Z b1 * inject_Z (M p) + inject_Z (M p / 2)))%Q).
Proof.
  intros Ho Hp _ Hidx a b.
  destruct (synthesize_run p o Ho Hp) as (m & pixels & _ & _ & Hrun).
  pose proof (drawn_atoms_range p o Ho Hp) as Hr.
  rewrite Forall_forall in Hr.
  pose proof (list_elem_of_lookup_2 _ _ _ Hidx) as Hin.
  destruct (site_inside (N p) idx (Hr idx Hin) (N_nonneg p Hp)) as [Ha Hb].
  simpl in Ha, Hb. rewrite Z2Nat.id in Ha, Hb by apply (N_nonneg p Hp).
  eexists. eexists. split; [exact Hrun|]. simpl.
  split; [done|]. split; [done|].
  split; [by apply marked_lattice_atom|].
  split; [intros a' b'; by apply marked_lattice_empty|].
  split; [by apply requests_photon|].
  intros b1 b2 HM Hlt. exact (y_center_decreasing p b1 b2 HM Hlt).
Qed.

Lemma ground_truth_rows_run_against_pixel_rows_witness :
  valid_oracle quiet /\ valid_params two_atoms
  /\ (Z.abs (N two_atoms * M two_atoms) <= 2 ^ 52)%Z
  /\ drawn_atoms two_atoms quiet !! 0 = Some 0%Z
  /\ exists out tr,
       run (synthesize two_atoms) quiet 0 = (tr, Ok out)
       /\ cell (actual_lattice out) 0 0 = Some 1%float
       /\ cell (actual_lattice out) 2 0 = Some 0%float
       /\ tr !! 1
          = Some (multivariate_normal
                    ((inject_Z 0 * inject_Z 4 + inject_Z (4 / 2))%Q,
                     (inject_Z 3 * inject_Z 4
                      - (inject_Z 0 * inject_Z 4 + inject_Z (4 / 2)))%Q)
                    ((1, 0), (0, 1))%Q 1).
Proof.
  assert (drawn_atoms two_atoms quiet !! 0 = Some 0%Z) as Hidx by reflexivity.
  assert (Z.abs (N two_atoms * M two_atoms) <= 2 ^ 52)%Z as Hsize
    by (vm_compute; discriminate).
  destruct (ground_truth_rows_run_against_pixel_rows two_atoms quiet 0 0%Z
              (fixed_oracle_valid 0 0 (0, 0)%Q) two_atoms_valid Hsize Hidx)
    as (out & tr & Hrun & _ & _ & Hcell & Hfree & Hreq & _).
  split; [apply fixed_oracle_valid|].
  split; [apply two_atoms_valid|]. split; [exact Hsize|].
  split; [exact Hidx|].
  exists out, tr. split; [exact Hrun|]. split; [exact Hcell|].
  split; [|exact Hreq].
  apply (Hfree 0%Z 2%Z); [simpl; lia..|].
  vm_compute. intros H. repeat (apply elem_of_cons in H as [H|H]; [discriminate|]).
  by apply elem_of_nil in H.
Defined.

(** ** C10: the rasterisation never writes outside the grid *)

(** C10: whatever the coordinates of the events are (negative, beyond
    the sensor), the rasterisation of a [ccd] x [ccd] grid raises no
    [IndexError]; every cell it increments is addressed by indices [y] and
    [x] strictly between 0 and [ccd], which the index normalisation of the
    array leaves as they are (no wrap-around from a negative index), and
    the result is the fold of these direct increments. *)
Theorem raster_writes_in_bounds (ccd : Z) (g : grid) (events : list (Z * Z)) :
  shape g (Z.to_nat ccd) (Z.to_nat ccd) ->
  rasterize ccd g events
  = Ok (foldl (poke (fun v => (v + 1)%float)) g (raster_writes ccd events))
  /\ shape (foldl (poke (fun v => (v + 1)%float)) g (raster_writes ccd events))
       (Z.to_nat ccd) (Z.to_nat ccd)
  /\ Forall (fun e =>
       (0 < fst e < ccd)%Z /\ (0 < snd e < ccd)%Z
       /\ norm_index (Z.to_nat ccd) (snd e) = Ok (Z.to_nat (snd e))
       /\ norm_index (Z.to_nat ccd) (fst e) = Ok (Z.to_nat (fst e)))
     (raster_writes ccd events)
  /\ forall e, e ∈ events ->
       ~ ((0 < fst e < ccd)%Z /\ (0 < snd e < ccd)%Z) -> e ∉ raster_writes ccd events.
Proof.
  intros Hs. split; [by apply rasterize_writes|].
  split; [by apply shape_foldl_poke|]. split.
  - apply Forall_forall. intros e He.
    apply list_elem_of_In, filter_In in He as [_ He].
    apply on_ccd_spec in He as [Hx Hy].
    split; [done|]. split; [done|].
    split; apply norm_index_inside; lia.
  - intros e _ Hout He. apply Hout.
    apply list_elem_of_In, filter_In in He as [_ He]. by apply on_ccd_spec.
Qed.

Lemma raster_writes_in_bounds_witness :
  shape (replicate 4 (replicate 4 0%float)) (Z.to_nat 4) (Z.to_nat 4)
  /\ rasterize 4 (replicate 4 (replicate 4 0%float))
       [(-1, 2); (2, -1); (0, 1); (1, 0); (4, 1); (1, 4); (3, 1); (-4, -4)]%Z
     = Ok [[0; 0; 0; 0]; [0; 0; 0; 1]; [0; 0; 0; 0]; [0; 0; 0; 0]]%float.
Proof.
  pose proof (shape_replicate 4 4 0%float) as Hs.
  split; [exact Hs|].
  exact (proj1 (raster_writes_in_bounds 4 (replicate 4 (replicate 4 0%float))
                  [(-1, 2); (2, -1); (0, 1); (1, 0); (4, 1); (1, 4); (3, 1); (-4, -4)]%Z Hs)).
Defined.

(** * Further properties of the constructor *)

(** ** The stages of a run *)

(** Once the atoms are drawn within the lattice, the run continues with
    the later stages on the marked lattice. *)
Lemma synthesize_from_photons (p : params) (o : oracle) :
  valid_oracle o -> (0 <= N p)%Z -> (0 <= N_atom p <= N p * N p)%Z ->
  run (synthesize p) o 0
  = (choice (arange (N p * N p)) (N_atom p) false
     :: (run (from_photons p (drawn_atoms p o) (marked_lattice p o)) o 1).1,
     (run (from_photons p (drawn_atoms p o) (marked_lattice p o)) o 1).2).
Proof.
  intros Ho HN Ha.
  assert (rejects (choice (arange (N p * N p)) (N_atom p) false) = false) as Hacc.
  { unfold rejects. rewrite length_arange.
    destruct (Z.ltb_spec (N_atom p) 0); [lia|].
    destruct (Z.ltb_spec (Z.of_nat (Z.to_nat (N p * N p))) (N_atom p)); [lia|].
    destruct (Nat.eqb_spec (Z.to_nat (N p * N p)) 0); simpl; [|done].
    destruct (Z.eqb_spec (N_atom p) 0); [done|lia]. }
  assert (Forall (fun i => 0 <= i < N p * N p)%Z (drawn_atoms p o)) as Hr.
  { eapply Forall_impl; [apply (choice_elem o Ho _ _ _ _ Hacc)|].
    intros i Hi. by apply elem_of_arange. }
  unfold synthesize. cbn [bind].
  apply run_choice_step; [done|].
  fold (drawn_atoms p o).
  unfold zeros at 1.
  destruct (Z.ltb_spec (N p) 0) as [|_]; [lia|]. cbn [orb lift bind].
  rewrite (unravel_index_ok (N p) (drawn_atoms p o)) by done.
  cbn [lift bind fst snd]. rewrite zip_unravel.
  rewrite (mark_atoms_inside _ (Z.to_nat (N p)) (Z.to_nat (N p))); cycle 1.
  { apply shape_replicate. }
  { apply Forall_fmap. eapply Forall_impl; [exact Hr|].
    intros i Hi. by apply site_inside. }
  cbn [lift bind]. fold (marked_lattice p o).
  by destruct (run _ o 1).
Qed.

Lemma run_photons (p : params) (o : oracle) :
  valid_oracle o -> (0 <= N p)%Z -> (0 <= N_atom p <= N p * N p)%Z ->
  (N_atom p = 0%Z \/ 0 <= N_photon p)%Z ->
  run (photon_loop p
         (map (x_center p) (map (fun i => (i / N p)%Z) (drawn_atoms p o)))
         (map (y_center p) (map (fun i => (i mod N p)%Z) (drawn_atoms p o)))
         (seq 0 (Z.to_nat (N_atom p))) [] []) o 1
  = (map (photon_request p) (map (centre p) (drawn_atoms p o)),
     Ok (signal_x p o, signal_y p o)).
Proof.
  intros Ho HN Ha Hph.
  assert (length (drawn_atoms p o) = Z.to_nat (N_atom p)) as Hlen.
  { apply (choice_length o Ho). unfold rejects. rewrite length_arange.
    destruct (Z.ltb_spec (N_atom p) 0); [lia|].
    destruct (Z.ltb_spec (Z.of_nat (Z.to_nat (N p * N p))) (N_atom p)); [lia|].
    destruct (Nat.eqb_spec (Z.to_nat (N p * N p)) 0); simpl; [|done].
    destruct (Z.eqb_spec (N_atom p) 0); [done|lia]. }
  destruct Hph as [Hnone|Hph].
  - rewrite Hnone in Hlen |- *. simpl in Hlen.
    apply nil_length_inv in Hlen.
    unfold signal_x, signal_y, drawn_photons. rewrite Hlen. reflexivity.
  - assert (map (x_center p) (map (fun i => (i / N p)%Z) (drawn_atoms p o))
            = map fst ([] ++ map (centre p) (drawn_atoms p o))) as ->.
    { simpl. rewrite !map_map. done. }
    assert (map (y_center p) (map (fun i => (i mod N p)%Z) (drawn_atoms p o))
            = map snd ([] ++ map (centre p) (drawn_atoms p o))) as ->.
    { simpl. rewrite !map_map. done. }
    assert (seq 0 (Z.to_nat (N_atom p))
            = seq (length (@nil (Q * Q))) (length (map (centre p) (drawn_atoms p o)))) as ->.
    { rewrite length_map, Hlen. done. }
    rewrite run_photon_loop by done. reflexivity.
Qed.

(** With a sensor that can be allocated and photons that can be
    requested, the run reaches the background stage after one request per
    atom. *)
Lemma from_photons_run (p : params) (o : oracle) (lattice : grid) :
  valid_oracle o -> (0 <= N p)%Z -> (0 <= N_atom p <= N p * N p)%Z ->
  (N_atom p = 0%Z \/ 0 <= N_photon p)%Z -> (0 <= CCD_resolution p)%Z ->
  run (from_photons p (drawn_atoms p o) lattice) o 1
  = (map (photon_request p) (map (centre p) (drawn_atoms p o))
     ++ (run (from_background p lattice
                (replicate (Z.to_nat (CCD_resolution p))
                   (replicate (Z.to_nat (CCD_resolution p)) 0%float))
                (signal_x p o, signal_y p o)) o (1 + length (drawn_atoms p o))).1,
     (run (from_background p lattice
             (replicate (Z.to_nat (CCD_resolution p))
                (replicate (Z.to_nat (CCD_resolution p)) 0%float))
             (signal_x p o, signal_y p o)) o (1 + length (drawn_atoms p o))).2).
Proof.
  intros Ho HN Ha Hph Hccd. unfold from_photons, zeros.
  destruct (Z.ltb_spec (CCD_resolution p) 0) as [|_]; [lia|]. cbn [orb lift bind].
  rewrite run_bind, run_photons by done.
  by rewrite !length_map.
Qed.

(** On accepted parameters the constructor returns, whatever the sign of
    [N_photon] when there is no atom. *)
Lemma synthesize_run_accepted (p : params) (o : oracle) :
  valid_oracle o -> accepted p ->
  exists m pixels,
    amax (counts p o) = Ok m
    /\ rescale (counts p o) = Ok pixels
    /\ length (drawn_dark_x p o) = length (drawn_dark_y p o)
    /\ run (synthesize p) o 0
       = (requests p o,
          Ok {| x_loc := signal_x p o ++ drawn_dark_x p o;
                y_loc := signal_y p o ++ drawn_dark_y p o;
                actual_lattice := marked_lattice p o;
                pixel_grid := pixels |}).
Proof.
  intros Ho (HN & Ha & Hph & Hccd & Hl & Hu).
  destruct (amax_nonempty (counts p o) _ _ (shape_counts p o)) as [m Hm]; [lia..|].
  destruct (rescale_cells _ _ Hm) as (pixels & Hres & _).
  assert (rejects (poisson (dark_mean p)) = false) as Hpois
    by (by apply poisson_accepted).
  assert (0 <= drawn_dark_count p o)%Z as Hd by (by apply (poisson_nonneg o Ho)).
  assert (rejects (choice (arange (CCD_resolution p)) (drawn_dark_count p o) true)
          = false) as Hch.
  { unfold rejects. rewrite length_arange.
    destruct (Z.ltb_spec (drawn_dark_count p o) 0); [lia|].
    destruct (Nat.eqb_spec (Z.to_nat (CCD_resolution p)) 0); [lia|done]. }
  exists m, pixels. split; [done|]. split; [done|]. split.
  { unfold drawn_dark_x, drawn_dark_y. by rewrite !(choice_length o Ho). }
  rewrite synthesize_from_photons, from_photons_run by (done || lia).
  unfold requests. cbn [fst snd].
  match goal with
  | |- (_ :: _ ++ (run ?X o ?i).1, (run ?X o ?i).2) = (_ :: _ ++ ?t, ?r) =>
      assert (run X o i = (t, r)) as ->; [|done]
  end.
  unfold from_background. fold (dark_mean p).
  apply run_poisson_step; [done|].
  fold (drawn_dark_count p o).
  apply run_choice_step; [done|].
  apply run_choice_step; [done|].
  change (o_choice o (S (1 + length (drawn_atoms p o))) _ _ true)
    with (drawn_dark_x p o).
  change (o_choice o (S (S (1 + length (drawn_atoms p o)))) _ _ true)
    with (drawn_dark_y p o).
  cbn [fst snd].
  rewrite rasterize_writes by apply shape_replicate.
  fold (counts p o). cbn [lift bind]. rewrite Hres. done.
Qed.

Lemma valid_params_accepted (p : params) : valid_params p -> accepted p.
Proof.
  intros [HN Ha Hph Hccd Hl Hu].
  split; [done|]. split; [done|]. split; [by right|]. done.
Qed.

Lemma no_photon_count_accepted : accepted no_photon_count.
Proof.
  split; [simpl; lia|]. split; [simpl; lia|]. split; [by left|].
  split; [simpl; lia|]. split; vm_compute; discriminate.
Qed.

Lemma length_signal_same (p : params) (o : oracle) :
  length (signal_x p o) = length (signal_y p o).
Proof.
  unfold signal_x, signal_y. rewrite <- !concat_map. by rewrite !length_map.
Qed.

(** ** Which parameters raise, and where *)







(** A negative photon count is rejected by the photon request of the
    first atom: the atoms are drawn and marked, the pixel grid is
    allocated, and no photon is drawn. *)
Theorem negative_photon_count_rejected (p : params) (o : oracle) :
  valid_oracle o -> (0 <= N p)%Z -> (1 <= N_atom p <= N p * N p)%Z ->
  (0 <= CCD_resolution p)%Z -> (N_photon p < 0)%Z ->
  exists idx,
    drawn_atoms p o !! 0 = Some idx
    /\ run (synthesize p) o 0
       = ([choice (arange (N p * N p)) (N_atom p) false;
           multivariate_normal (x_center p (idx / N p), y_center p (idx mod N p))
             ((std p, 0%Q), (0%Q, std p)) (N_photon p)],
          Err ValueError).
Proof.
  intros Ho HN Ha Hccd Hph.
  assert (length (drawn_atoms p o) = Z.to_nat (N_atom p)) as Hlen.
  { apply (choice_length o Ho). unfold rejects. rewrite length_arange.
    destruct (Z.ltb_spec (N_atom p) 0); [lia|].
    destruct (Z.ltb_spec (Z.of_nat (Z.to_nat (N p * N p))) (N_atom p)); [lia|].
    destruct (Nat.eqb_spec (Z.to_nat (N p * N p)) 0); simpl; [lia|done]. }
  destruct (drawn_atoms p o) as [|idx atoms] eqn:Hatoms; [simpl in Hlen; lia|].
  exists idx. split; [done|].
  rewrite synthesize_from_photons by (done || lia).
  rewrite Hatoms. unfold from_photons, zeros.
  destruct (Z.ltb_spec (CCD_resolution p) 0) as [|_]; [lia|]. cbn [orb lift bind].
  destruct (Z.to_nat (N_atom p)) as [|n] eqn:Hn; [lia|].
  cbn [seq map photon_loop lookup list_lookup bind run rejects].
  by destruct (Z.ltb_spec (N_photon p) 0); [|lia].
Qed.

Lemma negative_photon_count_rejected_witness :
  valid_oracle quiet
  /\ (0 <= 2)%Z /\ (1 <= 1 <= 2 * 2)%Z /\ (0 <= 16)%Z /\ (-1 < 0)%Z
  /\ exists idx,
       run (synthesize
              {| N := 2; M := 4; N_atom := 1; N_photon := -1; CCD_resolution := 16;
                 lattice_origin := (0, 0)%Z; std := 1; N_backg := 1; lam_backg := 200 |})
           quiet 0
       = ([choice (arange (2 * 2)) 1 false;
           multivariate_normal
             (x_center
                {| N := 2; M := 4; N_atom := 1; N_photon := -1; CCD_resolution := 16;
                   lattice_origin := (0, 0)%Z; std := 1; N_backg := 1;
                   lam_backg := 200 |} (idx / 2),
              y_center
                {| N := 2; M := 4; N_atom := 1; N_photon := -1; CCD_resolution := 16;
                   lattice_origin := (0, 0)%Z; std := 1; N_backg := 1;
                   lam_backg := 200 |} (idx mod 2))
             ((1, 0), (0, 1))%Q (-1)],
          Err ValueError).
Proof.
  assert (0 <= 2)%Z as HN by lia.
  assert (1 <= 1 <= 2 * 2)%Z as Ha by lia.
  assert (0 <= 16)%Z as Hccd by lia.
  assert (-1 < 0)%Z as Hph by lia.
  split; [apply fixed_oracle_valid|].
  split; [exact HN|]. split; [exact Ha|]. split; [exact Hccd|]. split; [exact Hph|].
  destruct (negative_photon_count_rejected
              {| N := 2; M := 4; N_atom := 1; N_photon := -1; CCD_resolution := 16;
                 lattice_origin := (0, 0)%Z; std := 1; N_backg := 1; lam_backg := 200 |}
              quiet (fixed_oracle_valid 0 0 (0, 0)%Q) HN Ha Hccd Hph)
    as (idx & _ & Hrun).
  exists idx. exact Hrun.
Defined.

(** A negative dark-count mean [lam_backg * N_backg] is rejected by the
    Poisson request, after the photons of every atom have been drawn. *)
Theorem negative_dark_mean_rejected (p : params) (o : oracle) :
  valid_oracle o -> (0 <= N p)%Z -> (0 <= N_atom p <= N p * N p)%Z ->
  (N_atom p = 0%Z \/ 0 <= N_photon p)%Z -> (0 <= CCD_resolution p)%Z ->
  (lam_backg p * inject_Z (N_backg p) < 0)%Q ->
  run (synthesize p) o 0
  = (choice (arange (N p * N p)) (N_atom p) false
     :: map (photon_request p) (map (centre p) (drawn_atoms p o))
     ++ [poisson (lam_backg p * inject_Z (N_backg p))],
     Err ValueError).
Proof.
  intros Ho HN Ha Hph Hccd Hlam.
  rewrite synthesize_from_photons, from_photons_run by done.
  unfold from_background. cbn [bind run].
  by rewrite poisson_negative.
Qed.

Lemma negative_dark_mean_rejected_witness :
  valid_oracle quiet
  /\ (0 <= 2)%Z /\ (0 <= 1 <= 2 * 2)%Z /\ (1 = 0 \/ 0 <= 1)%Z /\ (0 <= 16)%Z
  /\ (200 * inject_Z (-3) < 0)%Q
  /\ (run (synthesize
             {| N := 2; M := 4; N_atom := 1; N_photon := 1; CCD_resolution := 16;
                lattice_origin := (0, 0)%Z; std := 1; N_backg := -3;
                lam_backg := 200 |}) quiet 0).2
     = Err ValueError.
Proof.
  assert (0 <= 2)%Z as HN by lia.
  assert (0 <= 1 <= 2 * 2)%Z as Ha by lia.
  assert (1 = 0 \/ 0 <= 1)%Z as Hph by (right; lia).
  assert (0 <= 16)%Z as Hccd by lia.
  assert (200 * inject_Z (-3) < 0)%Q as Hlam by reflexivity.
  split; [apply fixed_oracle_valid|].
  split; [exact HN|]. split; [exact Ha|]. split; [exact Hph|]. split; [exact Hccd|].
  split; [exact Hlam|].
  exact (f_equal snd
           (negative_dark_mean_rejected
              {| N := 2; M := 4; N_atom := 1; N_photon := 1; CCD_resolution := 16;
                 lattice_origin := (0, 0)%Z; std := 1; N_backg := -3; lam_backg := 200 |}
              quiet (fixed_oracle_valid 0 0 (0, 0)%Q) HN Ha Hph Hccd Hlam)).
Defined.

Lemma rasterize_empty_sensor (g : grid) (events : list (Z * Z)) :
  rasterize 0 g events = Ok g.
Proof.
  induction events as [|e events IH]; simpl; [done|].
  unfold raster_step, on_ccd.
  destruct (Z.ltb_spec (fst e) 0), (Z.ltb_spec 0 (fst e)); simpl; try lia; try exact IH.
  all: destruct (Z.ltb_spec (snd e) 0); simpl; exact IH.
Qed.

(** A sensor without pixels always fails: with dark counts, the choice
    of their coordinates among no pixel is rejected; without, the maximum
    of the empty pixel grid ([pixel_grid.max()]) raises. *)
Theorem empty_sensor_fails (p : params) (o : oracle) :
  valid_oracle o -> (0 <= N p)%Z -> (0 <= N_atom p <= N p * N p)%Z ->
  (N_atom p = 0%Z \/ 0 <= N_photon p)%Z -> CCD_resolution p = 0%Z ->
  (run (synthesize p) o 0).2 = Err ValueError.
Proof.
  intros Ho HN Ha Hph Hccd.
  rewrite synthesize_from_photons, from_photons_run by (done || lia).
  cbn [snd]. unfold from_background. rewrite Hccd. cbn [bind run].
  destruct (rejects (poisson _)) eqn:Hlam; [done|].
  set (d := o_poisson o _ _).
  assert (0 <= d)%Z as Hd by (by apply (poisson_nonneg o Ho)).
  destruct (rejects (choice (arange 0) d true)) eqn:Hrej; [done|].
  assert (d = 0%Z) as Hd0.
  { unfold rejects in Hrej. simpl in Hrej.
    destruct (Z.eqb_spec d 0); [done|].
    by rewrite orb_true_r in Hrej. }
  rewrite rasterize_empty_sensor. reflexivity.
Qed.

Lemma empty_sensor_fails_witness :
  valid_oracle corner
  /\ (0 <= 2)%Z /\ (0 <= 1 <= 2 * 2)%Z /\ (1 = 0 \/ 0 <= 1)%Z /\ 0%Z = 0%Z
  /\ (run (synthesize
             {| N := 2; M := 4; N_atom := 1; N_photon := 1; CCD_resolution := 0;
                lattice_origin := (0, 0)%Z; std := 1; N_backg := 1;
                lam_backg := 200 |}) corner 0).2
     = Err ValueError.
Proof.
  assert (0 <= 2)%Z as HN by lia.
  assert (0 <= 1 <= 2 * 2)%Z as Ha by lia.
  assert (1 = 0 \/ 0 <= 1)%Z as Hph by (right; lia).
  split; [apply fixed_oracle_valid|].
  split; [exact HN|]. split; [exact Ha|]. split; [exact Hph|]. split; [reflexivity|].
  exact (empty_sensor_fails
           {| N := 2; M := 4; N_atom := 1; N_photon := 1; CCD_resolution := 0;
              lattice_origin := (0, 0)%Z; std := 1; N_backg := 1; lam_backg := 200 |}
           corner (fixed_oracle_valid 3 0 (1 # 2, - (21 # 2))%Q) HN Ha Hph eq_refl).
Defined.

(** ** Exactly which parameters are accepted *)






(** ** What the rasterisation counts *)

Lemma alter_alter_comm {A} (f g : A -> A) (i j : nat) (l : list A) :
  (i = j -> forall x, f (g x) = g (f x)) ->
  alter f i (alter g j l) = alter g j (alter f i l).
Proof.
  intros Hfg. apply list_eq. intros k.
  destruct (decide (i = k)) as [Hi|Hi], (decide (j = k)) as [Hj|Hj]; subst.
  - rewrite !list_lookup_alter_eq. destruct (l !! k); simpl; [|done].
    f_equal. by apply Hfg.
  - by repeat (rewrite list_lookup_alter_eq || rewrite list_lookup_alter_ne by done).
  - by repeat (rewrite list_lookup_alter_eq || rewrite list_lookup_alter_ne by done).
  - by rewrite !list_lookup_alter_ne.
Qed.

Lemma poke_comm (f : float -> float) (g : grid) (e1 e2 : Z * Z) :
  poke f (poke f g e1) e2 = poke f (poke f g e2) e1.
Proof.
  unfold poke. apply alter_alter_comm. intros _ row.
  by apply alter_alter_comm.
Qed.

Lemma foldl_poke_permutation (f : float -> float) (es es' : list (Z * Z)) :
  es ≡ₚ es' -> forall g, foldl (poke f) g es = foldl (poke f) g es'.
Proof.
  induction 1 as [|e es es' _ IH|e1 e2 es|es1 es2 es3 _ IH1 _ IH2]; intros g; simpl.
  - done.
  - apply IH.
  - by rewrite poke_comm.
  - by rewrite IH1.
Qed.

Lemma raster_writes_permutation (ccd : Z) (es es' : list (Z * Z)) :
  es ≡ₚ es' -> raster_writes ccd es ≡ₚ raster_writes ccd es'.
Proof.
  unfold raster_writes.
  induction 1 as [|e es es' _ IH|e1 e2 es|es1 es2 es3 _ IH1 _ IH2]; simpl.
  - done.
  - destruct (on_ccd ccd e); [by constructor|done].
  - destruct (on_ccd ccd e1), (on_ccd ccd e2); try done. apply perm_swap.
  - by etrans.
Qed.

(** The grid after the rasterisation loop does not depend on the order
    of the events: the signal and the background events, in any order,
    give the same counts. *)
Theorem rasterize_order_irrelevant (ccd : Z) (g : grid) (events events' : list (Z * Z)) :
  shape g (Z.to_nat ccd) (Z.to_nat ccd) ->
  events ≡ₚ events' ->
  rasterize ccd g events = rasterize ccd g events'
  /\ exists g', rasterize ccd g events = Ok g'.
Proof.
  intros Hs Hperm. rewrite !rasterize_writes by done.
  split; [|by eexists]. f_equal.
  by apply foldl_poke_permutation, raster_writes_permutation.
Qed.

Lemma rasterize_order_irrelevant_witness :
  shape (replicate 4 (replicate 4 0%float)) (Z.to_nat 4) (Z.to_nat 4)
  /\ [(1, 2); (3, 3); (0, 1); (1, 2)]%Z ≡ₚ [(0, 1); (1, 2); (1, 2); (3, 3)]%Z
  /\ rasterize 4 (replicate 4 (replicate 4 0%float)) [(1, 2); (3, 3); (0, 1); (1, 2)]%Z
     = rasterize 4 (replicate 4 (replicate 4 0%float)) [(0, 1); (1, 2); (1, 2); (3, 3)]%Z.
Proof.
  pose proof (shape_replicate 4 4 0%float) as Hs.
  assert ([(1, 2); (3, 3); (0, 1); (1, 2)]%Z ≡ₚ [(0, 1); (1, 2); (1, 2); (3, 3)]%Z) as Hp.
  { etrans; [apply perm_skip, perm_swap|].
    etrans; [apply perm_swap|]. apply perm_skip.
    etrans; [apply perm_skip, perm_swap|]. done. }
  split; [exact Hs|]. split; [exact Hp|].
  exact (proj1 (rasterize_order_irrelevant 4 _ _ _ Hs Hp)).
Defined.

Lemma hits_raster_writes (ccd x y : Z) (events : list (Z * Z)) :
  (0 < x < ccd)%Z -> (0 < y < ccd)%Z ->
  length (List.filter (fun e => bool_decide (pos e = (Z.to_nat y, Z.to_nat x)))
            (raster_writes ccd events))
  = hits x y events.
Proof.
  intros Hx Hy. unfold hits, raster_writes.
  induction events as [|e events IH]; simpl; [done|].
  unfold at_pixel at 1.
  destruct (Z.eqb_spec (fst e) x) as [Hfx|Hfx], (Z.eqb_spec (snd e) y) as [Hfy|Hfy];
    simpl.
  - assert (on_ccd ccd e = true) as -> by (apply on_ccd_spec; lia).
    simpl. rewrite bool_decide_eq_true_2 by (unfold pos; by rewrite Hfx, Hfy).
    simpl. by rewrite IH.
  - destruct (on_ccd ccd e) eqn:He; simpl; [|done].
    apply on_ccd_spec in He as [Hex Hey].
    rewrite bool_decide_eq_false_2; [done|]. unfold pos. intros [= Hr Hc]. lia.
  - destruct (on_ccd ccd e) eqn:He; simpl; [|done].
    apply on_ccd_spec in He as [Hex Hey].
    rewrite bool_decide_eq_false_2; [done|]. unfold pos. intros [= Hr Hc]. lia.
  - destruct (on_ccd ccd e) eqn:He; simpl; [|done].
    apply on_ccd_spec in He as [Hex Hey].
    rewrite bool_decide_eq_false_2; [done|]. unfold pos. intros [= Hr Hc]. lia.
Qed.

(** After the rasterisation loop, a pixel strictly inside the sensor
    holds its former value incremented once per event at that pixel; on
    the zero grid this is the count of the events at the pixel. *)
Theorem raster_counts_hits (ccd : Z) (g : grid) (events : list (Z * Z)) (x y : Z) :
  shape g (Z.to_nat ccd) (Z.to_nat ccd) ->
  (0 < x < ccd)%Z -> (0 < y < ccd)%Z ->
  exists g' v,
    rasterize ccd g events = Ok g'
    /\ cell g (Z.to_nat y) (Z.to_nat x) = Some v
    /\ cell g' (Z.to_nat y) (Z.to_nat x)
       = Some (Nat.iter (hits x y events) (fun c => (c + 1)%float) v).
Proof.
  intros Hs Hx Hy.
  destruct (cell_is_Some g _ _ (Z.to_nat y) (Z.to_nat x) Hs) as [v Hv]; [lia..|].
  eexists. exists v. split; [by apply rasterize_writes|]. split; [done|].
  by rewrite foldl_poke_cell, Hv, hits_raster_writes.
Qed.

Lemma raster_counts_hits_witness :
  shape (replicate 4 (replicate 4 0%float)) (Z.to_nat 4) (Z.to_nat 4)
  /\ (0 < 1 < 4)%Z /\ (0 < 2 < 4)%Z
  /\ exists g',
       rasterize 4 (replicate 4 (replicate 4 0%float))
         [(1, 2); (3, 3); (1, 2); (0, 2); (1, 2); (1, 5)]%Z = Ok g'
       /\ cell g' 2 1 = Some 3%float.
Proof.
  pose proof (shape_replicate 4 4 0%float) as Hs.
  assert (0 < 1 < 4)%Z as Hx by lia.
  assert (0 < 2 < 4)%Z as Hy by lia.
  destruct (raster_counts_hits 4 _ [(1, 2); (3, 3); (1, 2); (0, 2); (1, 2); (1, 5)]%Z
              1 2 Hs Hx Hy) as (g' & v & Hrun & Hv & Hcell).
  split; [exact Hs|]. split; [exact Hx|]. split; [exact Hy|].
  exists g'. split; [exact Hrun|].
  assert (v = 0%float) as -> by (vm_compute in Hv; congruence).
  exact Hcell.
Defined.

(** Row 0 and column 0 of the sensor never change in the rasterisation
    loop, whatever the events are. *)
Theorem raster_border_untouched (ccd : Z) (g : grid) (events : list (Z * Z)) (y x : nat) :
  shape g (Z.to_nat ccd) (Z.to_nat ccd) ->
  y = 0 \/ x = 0 ->
  exists g', rasterize ccd g events = Ok g' /\ cell g' y x = cell g y x.
Proof.
  intros Hs Hborder. eexists. split; [by apply rasterize_writes|].
  apply unmarked_cell. intros e He Hpos.
  apply list_elem_of_In, filter_In in He as [_ He].
  apply on_ccd_spec in He as [Hx Hy].
  unfold pos in Hpos. injection Hpos as Hr Hc. lia.
Qed.

Lemma raster_border_untouched_witness :
  shape (replicate 4 (replicate 4 0%float)) (Z.to_nat 4) (Z.to_nat 4)
  /\ (0 = 0 \/ 2 = 0)
  /\ exists g',
       rasterize 4 (replicate 4 (replicate 4 0%float))
         [(2, 0); (0, 0); (2, 1); (-2, 0); (2, 4)]%Z = Ok g'
       /\ cell g' 0 2 = Some 0%float.
Proof.
  pose proof (shape_replicate 4 4 0%float) as Hs.
  assert (0 = 0 \/ 2 = 0) as Hb by (by left).
  destruct (raster_border_untouched 4 _ [(2, 0); (0, 0); (2, 1); (-2, 0); (2, 4)]%Z
              0 2 Hs Hb) as (g' & Hrun & Hcell).
  split; [exact Hs|]. split; [exact Hb|].
  exists g'. split; [exact Hrun|]. exact Hcell.
Defined.

(** ** The returned arrays *)

Lemma shape_rescale (g g' : grid) (rows cols : nat) :
  rescale g = Ok g' -> shape g rows cols -> shape g' rows cols.
Proof.
  unfold rescale. destruct (amax g) as [m|e]; simpl; [|done].
  intros [= <-] [Hl Hr]. split; [by rewrite !length_map|].
  apply Forall_fmap, Forall_fmap. eapply Forall_impl; [exact Hr|].
  intros row Hrow. simpl. by rewrite !length_map.
Qed.

(** On accepted parameters the returned pixel grid has [CCD_resolution]
    rows of [CCD_resolution] cells, and the returned ground truth has [N]
    rows of [N] cells (one cell for a site, not for a pixel). *)
Theorem returned_shapes (p : params) (o : oracle) :
  valid_oracle o -> accepted p ->
  exists out,
    (run (synthesize p) o 0).2 = Ok out
    /\ shape (pixel_grid out) (Z.to_nat (CCD_resolution p)) (Z.to_nat (CCD_resolution p))
    /\ shape (actual_lattice out) (Z.to_nat (N p)) (Z.to_nat (N p)).
Proof.
  intros Ho Hp.
  destruct (synthesize_run_accepted p o Ho Hp) as (m & pixels & _ & Hres & _ & Hrun).
  eexists. rewrite Hrun. split; [reflexivity|]. simpl. split.
  - eapply shape_rescale; [exact Hres|apply shape_counts].
  - apply shape_marked_lattice.
Qed.

Lemma returned_shapes_witness :
  valid_oracle corner /\ accepted no_photon_count
  /\ ~ valid_params no_photon_count
  /\ exists out,
       (run (synthesize no_photon_count) corner 0).2 = Ok out
       /\ length (pixel_grid out) = 4
       /\ length (actual_lattice out) = 2.
Proof.
  destruct (returned_shapes no_photon_count corner
              (fixed_oracle_valid 3 0 (1 # 2, - (21 # 2))%Q) no_photon_count_accepted)
    as (out & Hrun & [Hpix _] & [Hlat _]).
  split; [apply fixed_oracle_valid|]. split; [apply no_photon_count_accepted|].
  split; [intros [_ _ H _ _ _]; simpl in H; lia|].
  exists out. split; [exact Hrun|]. split; [exact Hpix|exact Hlat].
Defined.

(** ** Runs without background, and without atoms *)

(** When the dark-count mean [lam_backg * N_backg] is 0, no background
    event is drawn: the coordinate sequences are the signal coordinates,
    [N_atom * N_photon] of them. *)
Theorem no_background_when_mean_is_zero (p : params) (o : oracle) :
  valid_oracle o -> valid_params p ->
  (lam_backg p * inject_Z (N_backg p) == 0)%Q ->
  exists out,
    (run (synthesize p) o 0).2 = Ok out
    /\ drawn_dark_count p o = 0%Z
    /\ x_loc out = signal_x p o
    /\ y_loc out = signal_y p o
    /\ Z.of_nat (length (x_loc out)) = (N_atom p * N_photon p)%Z.
Proof.
  intros Ho Hp Hzero.
  destruct (synthesize_run p o Ho Hp) as (m & pixels & _ & _ & Hrun).
  destruct (dark_draws p o Ho Hp) as (Hdx & Hdy & _ & _).
  assert (drawn_dark_count p o = 0%Z) as Hd by (by apply (poisson_zero o Ho)).
  rewrite Hd in Hdx, Hdy. apply nil_length_inv in Hdx, Hdy.
  pose proof (length_signal_x p o Ho Hp) as Hsx.
  pose proof (N_atom_range p Hp). pose proof (N_photon_nonneg p Hp).
  eexists. rewrite Hrun. split; [reflexivity|]. simpl.
  rewrite Hdx, Hdy, !app_nil_r. repeat split; [done|nia].
Qed.

Lemma no_background_when_mean_is_zero_witness :
  valid_oracle hot_pixel /\ valid_params two_atoms
  /\ (lam_backg two_atoms * inject_Z (N_backg two_atoms) == 0)%Q
  /\ exists out,
       (run (synthesize two_atoms) hot_pixel 0).2 = Ok out
       /\ x_loc out = [2; 2]%Z /\ y_loc out = [10; 6]%Z.
Proof.
  assert (lam_backg two_atoms * inject_Z (N_backg two_atoms) == 0)%Q as Hz by reflexivity.
  destruct (no_background_when_mean_is_zero two_atoms hot_pixel
              (fixed_oracle_valid 139 1 (0, 0)%Q) two_atoms_valid Hz)
    as (out & Hrun & _ & Hx & Hy & _).
  split; [apply fixed_oracle_valid|]. split; [apply two_atoms_valid|].
  split; [exact Hz|].
  exists out. split; [exact Hrun|]. split; [by rewrite Hx|by rewrite Hy].
Defined.

(** Without atoms, no photon is requested: the run is the choice of no
    site, the Poisson request and the two background choices; the ground
    truth is all zero and the coordinates are the background
    coordinates. *)
Theorem no_atom_run (p : params) (o : oracle) :
  valid_oracle o -> valid_params p -> N_atom p = 0%Z ->
  exists out,
    run (synthesize p) o 0
    = ([choice (arange (N p * N p)) 0 false;
        poisson (lam_backg p * inject_Z (N_backg p));
        choice (arange (CCD_resolution p)) (drawn_dark_count p o) true;
        choice (arange (CCD_resolution p)) (drawn_dark_count p o) true],
       Ok out)
    /\ x_loc out = drawn_dark_x p o
    /\ y_loc out = drawn_dark_y p o
    /\ actual_lattice out
       = replicate (Z.to_nat (N p)) (replicate (Z.to_nat (N p)) 0%float).
Proof.
  intros Ho Hp Hnone.
  destruct (synthesize_run p o Ho Hp) as (m & pixels & _ & _ & Hrun).
  pose proof (length_drawn_atoms p o Ho Hp) as Hlen.
  rewrite Hnone in Hlen. simpl in Hlen.
  eexists. rewrite Hrun. unfold requests, signal_x, signal_y, drawn_photons,
    marked_lattice.
  destruct (drawn_atoms p o); [|done]. rewrite Hnone. simpl. done.
Qed.

Lemma no_atom_run_witness :
  valid_oracle hot_pixel /\ valid_params background_only
  /\ N_atom background_only = 0%Z
  /\ exists out,
       (run (synthesize background_only) hot_pixel 0).1
       = [choice [0; 1; 2; 3]%Z 0 false;
          poisson (200 * inject_Z 1);
          choice [0; 1; 2; 3]%Z 139 true;
          choice [0; 1; 2; 3]%Z 139 true]
       /\ (run (synthesize background_only) hot_pixel 0).2 = Ok out
       /\ length (x_loc out) = 139.
Proof.
  destruct (no_atom_run background_only hot_pixel
              (fixed_oracle_valid 139 1 (0, 0)%Q) background_only_valid eq_refl)
    as (out & Hrun & Hx & _).
  split; [apply fixed_oracle_valid|]. split; [apply background_only_valid|].
  split; [reflexivity|].
  exists out. rewrite Hrun. split; [reflexivity|]. split; [reflexivity|].
  rewrite Hx. reflexivity.
Defined.

(** ** Moving the lattice origin *)

Lemma photon_draws_with_origin (p : params) (o : oracle) (origin : Z * Z)
    (i : nat) (centres : list (Q * Q)) :
  photon_draws (with_origin p origin) o i centres = photon_draws p o i centres.
Proof.
  revert i. induction centres as [|c cs IH]; intros i; simpl; [done|].
  by rewrite IH.
Qed.

Lemma signal_with_origin (p : params) (o : oracle) (origin : Z * Z) :
  Forall (fun s => (Z.abs (rint (fst s)) <= 2 ^ 52)%Z /\ (Z.abs (rint (snd s)) <= 2 ^ 52)%Z)
    (concat (drawn_photons p o)) ->
  (Z.abs (fst (lattice_origin p)) <= 2 ^ 52)%Z ->
  (Z.abs (snd (lattice_origin p)) <= 2 ^ 52)%Z ->
  (Z.abs (fst origin) <= 2 ^ 52)%Z -> (Z.abs (snd origin) <= 2 ^ 52)%Z ->
  signal_x (with_origin p origin) o
  = map (fun x => x - fst (lattice_origin p) + fst origin)%Z (signal_x p o)
  /\ signal_y (with_origin p origin) o
     = map (fun y => y - snd (lattice_origin p) + snd origin)%Z (signal_y p o).
Proof.
  intros Hs Hpx Hpy Hox Hoy. unfold signal_x, signal_y.
  assert (drawn_photons (with_origin p origin) o = drawn_photons p o) as ->.
  { unfold drawn_photons. apply photon_draws_with_origin. }
  rewrite <- !concat_map, !map_map. rewrite Forall_forall in Hs.
  split; apply map_ext_in; intros s Hin;
    apply list_elem_of_In, Hs in Hin as [Hsx Hsy].
  - unfold pixel_x. simpl. rewrite !pixel_exact by done. lia.
  - unfold pixel_y. simpl. rewrite !pixel_exact by done. lia.
Qed.

(** With the same samples, another lattice origin changes neither the
    sampling requests nor the ground truth nor the background
    coordinates; when the rounded samples and the two origins are of
    magnitude at most [2^52], so that every coordinate is stored exactly,
    every signal coordinate moves by the difference of the two
    origins. *)
Theorem origin_moves_the_signal_only (p : params) (o : oracle) (origin : Z * Z) :
  valid_oracle o -> valid_params p ->
  Forall (fun s => (Z.abs (rint (fst s)) <= 2 ^ 52)%Z /\ (Z.abs (rint (snd s)) <= 2 ^ 52)%Z)
    (concat (drawn_photons p o)) ->
  (Z.abs (fst (lattice_origin p)) <= 2 ^ 52)%Z ->
  (Z.abs (snd (lattice_origin p)) <= 2 ^ 52)%Z ->
  (Z.abs (fst origin) <= 2 ^ 52)%Z -> (Z.abs (snd origin) <= 2 ^ 52)%Z ->
  exists out out',
    (run (synthesize p) o 0).2 = Ok out
    /\ (run (synthesize (with_origin p origin)) o 0).2 = Ok out'
    /\ (run (synthesize (with_origin p origin)) o 0).1 = (run (synthesize p) o 0).1
    /\ actual_lattice out' = actual_lattice out
    /\ x_loc out = signal_x p o ++ drawn_dark_x p o
    /\ y_loc out = signal_y p o ++ drawn_dark_y p o
    /\ x_loc out'
       = map (fun x => x - fst (lattice_origin p) + fst origin)%Z (signal_x p o)
         ++ drawn_dark_x p o
    /\ y_loc out'
       = map (fun y => y - snd (lattice_origin p) + snd origin)%Z (signal_y p o)
         ++ drawn_dark_y p o.
Proof.
  intros Ho Hp Hs Hpx Hpy Hox Hoy.
  assert (valid_params (with_origin p origin)) as Hp'.
  { destruct Hp. by split. }
  destruct (synthesize_run p o Ho Hp) as (m & pixels & _ & _ & Hrun).
  destruct (synthesize_run (with_origin p origin) o Ho Hp')
    as (m' & pixels' & _ & _ & Hrun').
  destruct (signal_with_origin p o origin Hs Hpx Hpy Hox Hoy) as [Hsx Hsy].
  eexists. eexists. rewrite Hrun, Hrun'. simpl.
  split; [reflexivity|]. split; [reflexivity|]. simpl.
  split; [reflexivity|]. split; [reflexivity|].
  split; [reflexivity|]. split; [reflexivity|].
  rewrite Hsx, Hsy. split; reflexivity.
Qed.

Lemma origin_moves_the_signal_only_witness :
  valid_oracle corner /\ valid_params full_lattice
  /\ Forall (fun s => (Z.abs (rint (fst s)) <= 2 ^ 52)%Z
                      /\ (Z.abs (rint (snd s)) <= 2 ^ 52)%Z)
       (concat (drawn_photons full_lattice corner))
  /\ exists out',
       (run (synthesize (with_origin full_lattice (11, -8)%Z)) corner 0).2 = Ok out'
       /\ x_loc out' = [13; 13; 13; 13; 17; 17; 17; 17; 0; 0; 0]%Z
       /\ y_loc out' = [-12; -12; -16; -16; -12; -12; -16; -16; 0; 0; 0]%Z.
Proof.
  assert (Forall (fun s => (Z.abs (rint (fst s)) <= 2 ^ 52)%Z
                           /\ (Z.abs (rint (snd s)) <= 2 ^ 52)%Z)
            (concat (drawn_photons full_lattice corner))) as Hs.
  { apply Forall_forall. intros s Hin. vm_compute in Hin.
    repeat (apply elem_of_cons in Hin as [->|Hin];
            [split; vm_compute; discriminate|]).
    by apply elem_of_nil in Hin. }
  assert (Z.abs 1 <= 2 ^ 52)%Z as H1 by (vm_compute; discriminate).
  assert (Z.abs 2 <= 2 ^ 52)%Z as H2 by (vm_compute; discriminate).
  assert (Z.abs 11 <= 2 ^ 52)%Z as H3 by (vm_compute; discriminate).
  assert (Z.abs (-8) <= 2 ^ 52)%Z as H4 by (vm_compute; discriminate).
  destruct (origin_moves_the_signal_only full_lattice corner (11, -8)%Z
              (fixed_oracle_valid 3 0 (1 # 2, - (21 # 2))%Q) full_lattice_valid
              Hs H1 H2 H3 H4)
    as (out & out' & _ & Hrun' & _ & _ & _ & _ & Hx & Hy).
  split; [apply fixed_oracle_valid|]. split; [apply full_lattice_valid|].
  split; [exact Hs|].
  exists out'. split; [exact Hrun'|]. split; [by rewrite Hx|by rewrite Hy].
Defined.

(** * Properties of the plotting methods *)

(** ** [grid_plot]: the markers *)

Lemma stack_coords_same_length (xs ys : list Z) :
  length xs = length ys -> stack_coords xs ys = Ok (zip xs ys).
Proof.
  intros Hlen. unfold stack_coords. by rewrite Hlen, Nat.eqb_refl.
Qed.

Lemma zip_fst_snd {A B} (l : list (A * B)) : zip (map fst l) (map snd l) = l.
Proof. induction l as [|[a b] l IH]; simpl; [done|]. by rewrite IH. Qed.

(** [grid_plot] on coordinate sequences of the same length always
    returns; its markers are, in the order of the events and with their
    repetitions, exactly the events [(x, y)] with
    [x0 < x < x0 + N*M], [y0 < y < y0 + N*M], [x < num_sites*M + x0] and
    [y < num_sites*M + y0], where [(x0, y0)] is the lattice origin: every
    bound is strict.  The y axis is inverted when asked for. *)
Theorem grid_plot_markers (p : params) (img : image) (num_sites : Z) (invert_y : bool) :
  length (x_loc img) = length (y_loc img) ->
  exists fig,
    grid_plot p img num_sites invert_y = Ok fig
    /\ zip (marker_x fig) (marker_y fig)
       = List.filter
           (fun c => bool_decide
              ((fst (lattice_origin p) < fst c < fst (lattice_origin p) + N p * M p)%Z
               /\ (snd (lattice_origin p) < snd c < snd (lattice_origin p) + N p * M p)%Z
               /\ (fst c < num_sites * M p + fst (lattice_origin p))%Z
               /\ (snd c < num_sites * M p + snd (lattice_origin p))%Z))
           (zip (x_loc img) (y_loc img))
    /\ length (marker_x fig) = length (marker_y fig)
    /\ (forall x y,
          (x, y) ∈ zip (marker_x fig) (marker_y fig)
          <-> (x, y) ∈ zip (x_loc img) (y_loc img)
              /\ (fst (lattice_origin p) < x < fst (lattice_origin p) + N p * M p)%Z
              /\ (snd (lattice_origin p) < y < snd (lattice_origin p) + N p * M p)%Z
              /\ (x < num_sites * M p + fst (lattice_origin p))%Z
              /\ (y < num_sites * M p + snd (lattice_origin p))%Z)
    /\ y_inverted fig = invert_y.
Proof.
  intros Hlen. unfold grid_plot.
  rewrite stack_coords_same_length by done. simpl.
  eexists. split; [reflexivity|]. simpl.
  rewrite zip_fst_snd, !length_map.
  assert (forall l,
    List.filter (in_first_sites p num_sites) (List.filter (in_lattice_region p) l)
    = List.filter
        (fun c => bool_decide
           ((fst (lattice_origin p) < fst c < fst (lattice_origin p) + N p * M p)%Z
            /\ (snd (lattice_origin p) < snd c < snd (lattice_origin p) + N p * M p)%Z
            /\ (fst c < num_sites * M p + fst (lattice_origin p))%Z
            /\ (snd c < num_sites * M p + snd (lattice_origin p))%Z)) l)
    as Hfilter.
  { induction l as [|c l IH]; simpl; [done|].
    unfold in_lattice_region at 1.
    destruct (Z.ltb_spec (fst (lattice_origin p)) (fst c));
      destruct (Z.ltb_spec (fst c) (fst (lattice_origin p) + N p * M p));
      destruct (Z.ltb_spec (snd (lattice_origin p)) (snd c));
      destruct (Z.ltb_spec (snd c) (snd (lattice_origin p) + N p * M p));
      cbn [andb];
      try (rewrite bool_decide_eq_false_2 by lia; exact IH).
    cbn [List.filter]. unfold in_first_sites at 1.
    destruct (Z.ltb_spec (fst c) (num_sites * M p + fst (lattice_origin p)));
      destruct (Z.ltb_spec (snd c) (num_sites * M p + snd (lattice_origin p)));
      cbn [andb];
      try (rewrite bool_decide_eq_false_2 by lia; exact IH).
    rewrite bool_decide_eq_true_2 by lia. by rewrite IH. }
  split; [apply Hfilter|]. split; [done|]. split; [|done].
  intros x y. rewrite Hfilter, !list_elem_of_In, filter_In, bool_decide_eq_true.
  simpl. tauto.
Qed.

Lemma grid_plot_markers_witness :
  length [3; 3; 1; 5; 2; 9; 4]%Z = length [4; 3; 6; 7; 5; 5; 2]%Z
  /\ exists fig,
       grid_plot full_lattice
         {| x_loc := [3; 3; 1; 5; 2; 9; 4]%Z; y_loc := [4; 3; 6; 7; 5; 5; 2]%Z;
            actual_lattice := []; pixel_grid := [] |} 1 true = Ok fig
       /\ zip (marker_x fig) (marker_y fig) = [(3, 4); (3, 3); (2, 5)]%Z
       /\ y_inverted fig = true.
Proof.
  assert (length [3; 3; 1; 5; 2; 9; 4]%Z = length [4; 3; 6; 7; 5; 5; 2]%Z) as Hlen
    by reflexivity.
  destruct (grid_plot_markers full_lattice
              {| x_loc := [3; 3; 1; 5; 2; 9; 4]%Z; y_loc := [4; 3; 6; 7; 5; 5; 2]%Z;
                 actual_lattice := []; pixel_grid := [] |} 1 true Hlen)
    as (fig & Hplot & Hmark & _ & _ & Hinv).
  split; [exact Hlen|]. exists fig. split; [exact Hplot|].
  split; [rewrite Hmark; reflexivity|exact Hinv].
Defined.

(** With [M >= 0]: asking for all [N] sites or more shows every event
    strictly inside the lattice region; asking for no site shows none. *)
Theorem grid_plot_site_selection (p : params) (img : image) (num_sites : Z)
    (invert_y : bool) :
  length (x_loc img) = length (y_loc img) -> (0 <= M p)%Z ->
  exists fig,
    grid_plot p img num_sites invert_y = Ok fig
    /\ ((N p <= num_sites)%Z ->
        zip (marker_x fig) (marker_y fig)
        = List.filter (in_lattice_region p) (zip (x_loc img) (y_loc img)))
    /\ ((num_sites <= 0)%Z -> marker_x fig = [] /\ marker_y fig = []).
Proof.
  intros Hlen HM. unfold grid_plot.
  rewrite stack_coords_same_length by done. simpl.
  eexists. split; [reflexivity|]. simpl. split.
  - intros Hall. rewrite zip_fst_snd.
    induction (zip (x_loc img) (y_loc img)) as [|c l IH]; simpl; [done|].
    destruct (in_lattice_region p c) eqn:Hreg; simpl; [|done].
    assert (in_first_sites p num_sites c = true) as ->; [|by rewrite IH].
    unfold in_lattice_region in Hreg. rewrite !andb_true_iff, !Z.ltb_lt in Hreg.
    unfold in_first_sites. rewrite andb_true_iff, !Z.ltb_lt. nia.
  - intros Hnone.
    assert (List.filter (in_first_sites p num_sites)
              (List.filter (in_lattice_region p) (zip (x_loc img) (y_loc img))) = [])
      as ->; [|done].
    induction (zip (x_loc img) (y_loc img)) as [|c l IH]; simpl; [done|].
    destruct (in_lattice_region p c) eqn:Hreg; simpl; [|done].
    assert (in_first_sites p num_sites c = false) as ->; [|done].
    unfold in_lattice_region in Hreg. rewrite !andb_true_iff, !Z.ltb_lt in Hreg.
    unfold in_first_sites. apply andb_false_iff. left. apply Z.ltb_ge. nia.
Qed.

Lemma grid_plot_site_selection_witness :
  length [3; 3; 1; 5; 2; 9; 4]%Z = length [4; 3; 6; 7; 5; 5; 2]%Z
  /\ (0 <= M full_lattice)%Z
  /\ exists fig,
       grid_plot full_lattice
         {| x_loc := [3; 3; 1; 5; 2; 9; 4]%Z; y_loc := [4; 3; 6; 7; 5; 5; 2]%Z;
            actual_lattice := []; pixel_grid := [] |} 2 false = Ok fig
       /\ zip (marker_x fig) (marker_y fig) = [(3, 4); (3, 3); (5, 7); (2, 5)]%Z.
Proof.
  assert (length [3; 3; 1; 5; 2; 9; 4]%Z = length [4; 3; 6; 7; 5; 5; 2]%Z) as Hlen
    by reflexivity.
  assert (0 <= M full_lattice)%Z as HM by (simpl; lia).
  destruct (grid_plot_site_selection full_lattice
              {| x_loc := [3; 3; 1; 5; 2; 9; 4]%Z; y_loc := [4; 3; 6; 7; 5; 5; 2]%Z;
                 actual_lattice := []; pixel_grid := [] |} 2 false Hlen HM)
    as (fig & Hplot & Hall & _).
  split; [exact Hlen|]. split; [exact HM|]. exists fig. split; [exact Hplot|].
  rewrite Hall by (simpl; lia). reflexivity.
Defined.

(** ** [grid_plot]: the grid lines *)





(** ** [plot]: the centre points *)

Lemma set_point_inside (t : list (list (Q * Q))) (n : nat) (i j : Z) (v : Q * Q) :
  square t n -> (0 <= i < Z.of_nat n)%Z -> (0 <= j < Z.of_nat n)%Z ->
  exists t',
    set_point t i j v = Ok t'
    /\ square t' n
    /\ point t' (Z.to_nat i) (Z.to_nat j) = Some v
    /\ forall a b, (a, b) <> (Z.to_nat i, Z.to_nat j) -> point t' a b = point t a b.
Proof.
  intros [Hl Hr] Hi Hj. unfold set_point.
  rewrite norm_index_inside by lia. simpl.
  destruct (lookup_lt_is_Some_2 t (Z.to_nat i)) as [row Hrow]; [lia|].
  rewrite Hrow.
  assert (length row = n) as Hlen by (eapply Forall_lookup_1 in Hr; eauto).
  rewrite norm_index_inside by lia. simpl.
  eexists. split; [reflexivity|]. split; [|split].
  - split; [by rewrite length_insert|].
    apply Forall_insert; [done|]. by rewrite length_insert.
  - unfold point. rewrite list_lookup_insert_eq by lia.
    apply list_lookup_insert_eq. lia.
  - intros a b Hne. unfold point.
    destruct (decide (a = Z.to_nat i)) as [->|Ha].
    + rewrite list_lookup_insert_eq, Hrow by lia.
      apply list_lookup_insert_ne. congruence.
    + by rewrite list_lookup_insert_ne.
Qed.

Lemma fill_row_spec (p : params) (n : nat) (nx : Z) (nys : list Z)
    (t : list (list (Q * Q))) :
  square t n -> (0 <= nx < Z.of_nat n)%Z ->
  Forall (fun ny => 0 <= ny < Z.of_nat n)%Z nys ->
  exists t',
    fill_row p nx nys t = Ok t'
    /\ square t' n
    /\ forall a b,
         point t' a b
         = if decide (a = Z.to_nat nx /\ Z.of_nat b ∈ nys)
           then Some (center_value p nx (Z.of_nat b)) else point t a b.
Proof.
  intros Hsq Hnx Hnys. revert t Hsq.
  induction Hnys as [|ny nys Hny _ IH]; intros t Hsq; simpl.
  - exists t. split; [done|]. split; [done|]. intros a b.
    destruct (decide _) as [[_ Hin]|]; [by apply elem_of_nil in Hin|done].
  - destruct (set_point_inside t n nx ny (center_value p nx ny) Hsq Hnx Hny)
      as (t1 & Hset & Hsq1 & Hnew & Hold).
    unfold center_value in Hset. rewrite Hset. simpl.
    destruct (IH t1 Hsq1) as (t' & Hfill & Hsq' & Hpt).
    exists t'. split; [done|]. split; [done|]. intros a b. rewrite Hpt.
    destruct (decide (a = Z.to_nat nx /\ Z.of_nat b ∈ nys)) as [[-> Hin]|Hnot].
    + rewrite decide_True; [done|]. split; [done|]. by right.
    + destruct (decide ((a, b) = (Z.to_nat nx, Z.to_nat ny))) as [[= -> ->]|Hne].
      * rewrite decide_True by (split; [done|]; rewrite Z2Nat.id by lia; left).
        rewrite Hnew. by rewrite Z2Nat.id by lia.
      * rewrite Hold by done. rewrite decide_False; [done|].
        intros [-> Hin]. apply elem_of_cons in Hin as [Heq|Hin]; [|by apply Hnot].
        apply Hne. f_equal. lia.
Qed.

Lemma fill_rows_spec (p : params) (nxs : list Z) (t : list (list (Q * Q))) :
  square t (Z.to_nat (N p)) -> (0 <= N p)%Z ->
  Forall (fun nx => 0 <= nx < N p)%Z nxs ->
  exists t',
    fill_rows p nxs t = Ok t'
    /\ square t' (Z.to_nat (N p))
    /\ forall a b, b < Z.to_nat (N p) ->
         point t' a b
         = if decide (Z.of_nat a ∈ nxs)
           then Some (center_value p (Z.of_nat a) (Z.of_nat b)) else point t a b.
Proof.
  intros Hsq HN Hnxs. revert t Hsq.
  induction Hnxs as [|nx nxs Hnx _ IH]; intros t Hsq; simpl.
  - exists t. split; [done|]. split; [done|]. intros a b _.
    done || (case_decide as Hin; [by apply elem_of_nil in Hin|done]).
  - destruct (fill_row_spec p (Z.to_nat (N p)) nx (arange (N p)) t Hsq) as
      (t1 & Hrow & Hsq1 & Hpt1); [lia| |].
    { apply Forall_forall. intros ny Hin. apply elem_of_arange in Hin. lia. }
    rewrite Hrow. simpl.
    destruct (IH t1 Hsq1) as (t' & Hfill & Hsq' & Hpt).
    exists t'. split; [done|]. split; [done|]. intros a b Hb. rewrite Hpt by done.
    destruct (decide (Z.of_nat a ∈ nxs)) as [Hin|Hnot].
    + rewrite decide_True; [done|]. by right.
    + rewrite Hpt1.
      destruct (decide (a = Z.to_nat nx /\ Z.of_nat b ∈ arange (N p))) as [[-> _]|Hne].
      * rewrite decide_True by (rewrite Z2Nat.id by lia; left).
        by rewrite Z2Nat.id by lia.
      * rewrite decide_False; [done|].
        intros Hin. apply elem_of_cons in Hin as [Heq|Hin]; [|done].
        apply Hne. split; [lia|]. apply elem_of_arange. lia.
Qed.

(** For [N >= 0] the two loops of [plot] fill every entry of the
    [N] x [N] array: [center_points[a][b]] is [(M/2 + a*M, M/2 + b*M)],
    with the integer division [M/2] of the source.  The second index of
    the table runs against the pixel rows of the image: the photons of
    the site with unravelled components [(a, b)] are sampled around
    [center_points[a][N-1-b]] when [M] is even, and one pixel row above
    that point when [M] is odd.  The lattice spans at most [2^52] pixels
    per axis, so that the float64 table holds every entry exactly. *)
Theorem center_points_table (p : params) (a b : Z) :
  (0 <= a < N p)%Z -> (0 <= b < N p)%Z -> (Z.abs (N p * M p) <= 2 ^ 52)%Z ->
  exists t cx cy,
    center_points p = Ok t
    /\ square t (Z.to_nat (N p))
    /\ point t (Z.to_nat a) (Z.to_nat b)
       = Some ((inject_Z (M p / 2) + inject_Z a * inject_Z (M p))%Q,
               (inject_Z (M p / 2) + inject_Z b * inject_Z (M p))%Q)
    /\ point t (Z.to_nat a) (Z.to_nat (N p - 1 - b)) = Some (cx, cy)
    /\ (cx == x_center p a)%Q
    /\ (Z.even (M p) = true -> (cy == y_center p b)%Q)
    /\ (Z.odd (M p) = true -> (cy == y_center p b - 1)%Q).
Proof.
  intros Ha Hb _. unfold center_points.
  destruct (Z.ltb_spec (N p) 0) as [|HN]; [lia|].
  destruct (fill_rows_spec p (arange (N p))
              (replicate (Z.to_nat (N p)) (replicate (Z.to_nat (N p)) (0, 0)%Q)))
    as (t & Hfill & Hsq & Hpt); [|done| |].
  { split; [apply length_replicate|]. apply Forall_replicate, length_replicate. }
  { apply Forall_forall. intros nx Hin. by apply elem_of_arange in Hin. }
  exists t. eexists. eexists. split; [exact Hfill|]. split; [done|].
  assert (forall c d, (0 <= c < N p)%Z -> (0 <= d < N p)%Z ->
            point t (Z.to_nat c) (Z.to_nat d) = Some (center_value p c d)) as Hall.
  { intros c d Hc Hd. rewrite Hpt by lia.
    rewrite decide_True by (apply elem_of_arange; lia).
    by rewrite !Z2Nat.id by lia. }
  split; [by apply Hall|]. split; [apply Hall; lia|].
  unfold x_center, y_center. simpl. split; [ring|].
  split; intros Hpar.
  - rewrite (half_even _ Hpar).
    unfold Z.sub. rewrite !inject_Z_plus, !inject_Z_opp.
    change (inject_Z 1) with 1%Q. field.
  - rewrite (half_odd _ Hpar).
    unfold Z.sub. rewrite !inject_Z_plus, !inject_Z_opp.
    change (inject_Z 1) with 1%Q. field.
Qed.

Lemma center_points_table_witness :
  (0 <= 0 < N odd_pitch)%Z /\ (0 <= 1 < N odd_pitch)%Z
  /\ (Z.abs (N odd_pitch * M odd_pitch) <= 2 ^ 52)%Z
  /\ exists t,
       center_points odd_pitch = Ok t
       /\ point t 0 1
          = Some ((inject_Z (5 / 2) + inject_Z 0 * inject_Z 5)%Q,
                  (inject_Z (5 / 2) + inject_Z 1 * inject_Z 5)%Q)
       /\ exists cy, point t 0 0 = Some (inject_Z (5 / 2) + inject_Z 0 * inject_Z 5, cy)%Q
                     /\ (cy == y_center odd_pitch 1 - 1)%Q.
Proof.
  assert (0 <= 0 < N odd_pitch)%Z as Ha by (simpl; lia).
  assert (0 <= 1 < N odd_pitch)%Z as Hb by (simpl; lia).
  assert (Z.abs (N odd_pitch * M odd_pitch) <= 2 ^ 52)%Z as Hsize
    by (vm_compute; discriminate).
  destruct (center_points_table odd_pitch 0 1 Ha Hb Hsize)
    as (t & cx & cy & Ht & _ & Hpt & Hflip & _ & _ & Hcy).
  split; [exact Ha|]. split; [exact Hb|]. split; [exact Hsize|].
  exists t. split; [exact Ht|]. split; [exact Hpt|].
  exists cy. split; [|exact (Hcy eq_refl)].
  change (Z.to_nat (N odd_pitch - 1 - 1)) with 0 in Hflip.
  change (Z.to_nat 0) with 0 in Hflip.
  vm_compute in Ht. injection Ht as <-.
  vm_compute in Hflip. injection Hflip as <- <-. reflexivity.
Defined.

(** ** [plot]: the figure *)

Lemma center_points_returns (p : params) :
  (0 <= N p)%Z -> exists t, center_points p = Ok t.
Proof.
  intros HN. unfold center_points.
  destruct (Z.ltb_spec (N p) 0) as [|_]; [lia|].
  destruct (fill_rows_spec p (arange (N p))
              (replicate (Z.to_nat (N p)) (replicate (Z.to_nat (N p)) (0, 0)%Q)))
    as (t & Hfill & _); [|done| |by exists t].
  - split; [apply length_replicate|]. apply Forall_replicate, length_replicate.
  - apply Forall_forall. intros nx Hin. by apply elem_of_arange in Hin.
Qed.




(** [plot] raises [ValueError] when the two coordinate sequences differ
    in length ([plt.plot]); with sequences of the same length it raises
    [ZeroDivisionError] when [M = 0] (the grid lines would be zero apart:
    [np.arange] divides by its step), and [ValueError] when [M] is not 0
    and [N < 0] (the array of centre points cannot be allocated). *)
Theorem plot_raises (p : params) (img : image) (invert_y : bool) :
  (length (x_loc img) <> length (y_loc img) ->
   plot p img invert_y = Err ValueError)
  /\ (length (x_loc img) = length (y_loc img) -> M p = 0%Z ->
      plot p img invert_y = Err ZeroDivisionError)
  /\ (length (x_loc img) = length (y_loc img) -> M p <> 0%Z -> (N p < 0)%Z ->
      plot p img invert_y = Err ValueError).
Proof.
  unfold plot.
  destruct (Nat.eqb_spec (length (x_loc img)) (length (y_loc img))) as [Hlen|Hlen].
  - split; [done|]. simpl. unfold arange_step. split.
    + intros _ HM. rewrite HM. reflexivity.
    + intros _ HM HN.
      assert (Qeq_bool (inject_Z (M p)) 0 = false) as ->.
      { apply not_true_is_false. intros Hz. apply Qeq_bool_iff in Hz.
        unfold Qeq in Hz. simpl in Hz. lia. }
      simpl. unfold center_points. by destruct (Z.ltb_spec (N p) 0); [|lia].
  - split; [done|]. split; intros Heq; by destruct Hlen.
Qed.

Lemma plot_raises_witness :
  plot {| N := 2; M := 0; N_atom := 1; N_photon := 1; CCD_resolution := 16;
          lattice_origin := (0, 0)%Z; std := 1; N_backg := 1; lam_backg := 200 |}
    {| x_loc := [3; 9]%Z; y_loc := [4; -3]%Z; actual_lattice := []; pixel_grid := [] |}
    false
  = Err ZeroDivisionError
  /\ plot {| N := -2; M := 4; N_atom := 1; N_photon := 1; CCD_resolution := 16;
             lattice_origin := (0, 0)%Z; std := 1; N_backg := 1; lam_backg := 200 |}
       {| x_loc := [3; 9]%Z; y_loc := [4; -3]%Z; actual_lattice := []; pixel_grid := [] |}
       false
     = Err ValueError
  /\ plot full_lattice
       {| x_loc := [3; 9]%Z; y_loc := [4]%Z; actual_lattice := []; pixel_grid := [] |}
       false
     = Err ValueError.
Proof.
  split; [|split].
  - exact (proj1 (proj2 (plot_raises
             {| N := 2; M := 0; N_atom := 1; N_photon := 1; CCD_resolution := 16;
                lattice_origin := (0, 0)%Z; std := 1; N_backg := 1; lam_backg := 200 |}
             {| x_loc := [3; 9]%Z; y_loc := [4; -3]%Z; actual_lattice := [];
                pixel_grid := [] |} false)) eq_refl eq_refl).
  - refine (proj2 (proj2 (plot_raises
              {| N := -2; M := 4; N_atom := 1; N_photon := 1; CCD_resolution := 16;
                 lattice_origin := (0, 0)%Z; std := 1; N_backg := 1; lam_backg := 200 |}
              {| x_loc := [3; 9]%Z; y_loc := [4; -3]%Z; actual_lattice := [];
                 pixel_grid := [] |} false)) eq_refl _ eq_refl).
    simpl. discriminate.
  - refine (proj1 (plot_raises full_lattice
              {| x_loc := [3; 9]%Z; y_loc := [4]%Z; actual_lattice := [];
                 pixel_grid := [] |} false) _).
    simpl. discriminate.
Defined.

(** ** The methods on the image of a run *)

Lemma plot_shape (p : params) (img : image) (invert_y : bool) :
  length (x_loc img) = length (y_loc img) -> (0 < M p)%Z -> (0 <= N p)%Z ->
  exists fig t,
    plot p img invert_y = Ok (fig, t)
    /\ marker_x fig = x_loc img /\ marker_y fig = y_loc img.
Proof.
  intros Hlen HM HN. unfold plot. rewrite Hlen, Nat.eqb_refl. simpl.
  unfold arange_step.
  assert (Qeq_bool (inject_Z (M p)) 0 = false) as ->.
  { apply not_true_is_false. intros Hz. apply Qeq_bool_iff in Hz.
    unfold Qeq in Hz. simpl in Hz. lia. }
  simpl. destruct (center_points_returns p HN) as [t Ht]. rewrite Ht. simpl.
  eexists. eexists. split; [reflexivity|]. done.
Qed.

(** On the image that the constructor returns on accepted parameters,
    [grid_plot] always returns a figure, and so does [plot] when [M > 0]:
    the coordinate sequences of a run have the same length. *)
Theorem plots_accept_a_synthesized_image (p : params) (o : oracle)
    (num_sites : Z) (invert_y : bool) :
  valid_oracle o -> accepted p ->
  exists img fig,
    (run (synthesize p) o 0).2 = Ok img
    /\ length (x_loc img) = length (y_loc img)
    /\ grid_plot p img num_sites invert_y = Ok fig
    /\ ((0 < M p)%Z ->
        exists fig' t, plot p img invert_y = Ok (fig', t)
                       /\ marker_x fig' = signal_x p o ++ drawn_dark_x p o
                       /\ marker_y fig' = signal_y p o ++ drawn_dark_y p o).
Proof.
  intros Ho Hp.
  destruct (synthesize_run_accepted p o Ho Hp) as (m & pixels & _ & _ & Hd & Hrun).
  pose proof (length_signal_same p o) as Hs.
  destruct Hp as (HN & _).
  set (img := {| x_loc := signal_x p o ++ drawn_dark_x p o;
                 y_loc := signal_y p o ++ drawn_dark_y p o;
                 actual_lattice := marked_lattice p o;
                 pixel_grid := pixels |}).
  assert (length (x_loc img) = length (y_loc img)) as Hlen.
  { simpl. rewrite !length_app. lia. }
  exists img. rewrite Hrun.
  unfold grid_plot. rewrite stack_coords_same_length by done.
  cbn [result_bind arange_step Qeq_bool Qnum Qden Z.mul Pos.mul Z.eqb].
  eexists. split; [reflexivity|]. split; [exact Hlen|]. split; [reflexivity|].
  intros HM.
  destruct (plot_shape p img invert_y Hlen HM HN) as (fig' & t & Hplot & Hx & Hy).
  exists fig', t. by rewrite Hplot.
Qed.

Lemma plots_accept_a_synthesized_image_witness :
  valid_oracle quiet /\ accepted no_photon_count
  /\ ~ valid_params no_photon_count
  /\ exists img fig,
       (run (synthesize no_photon_count) quiet 0).2 = Ok img
       /\ grid_plot no_photon_count img 3 false = Ok fig
       /\ marker_x fig = [] /\ marker_y fig = [].
Proof.
  destruct (plots_accept_a_synthesized_image no_photon_count quiet 3 false
              (fixed_oracle_valid 0 0 (0, 0)%Q) no_photon_count_accepted)
    as (img & fig & Hrun & _ & Hplot & _).
  split; [apply fixed_oracle_valid|]. split; [apply no_photon_count_accepted|].
  split; [intros [_ _ H _ _ _]; simpl in H; lia|].
  exists img, fig. split; [exact Hrun|]. split; [exact Hplot|].
  vm_compute in Hrun. injection Hrun as <-.
  vm_compute in Hplot. injection Hplot as <-. split; reflexivity.
Defined.

(** [grid_plot] raises [ValueError] on coordinate sequences of different
    lengths, unless [y_loc] has exactly one entry, which is then paired
    with every entry of [x_loc]. *)
Theorem grid_plot_mismatched_lengths (p : params) (img : image) (num_sites : Z)
    (invert_y : bool) :
  length (y_loc img) <> length (x_loc img) ->
  (length (y_loc img) <> 1 -> grid_plot p img num_sites invert_y = Err ValueError)
  /\ (forall y, y_loc img = [y] ->
        exists fig,
          grid_plot p img num_sites invert_y = Ok fig
          /\ zip (marker_x fig) (marker_y fig)
             = List.filter (fun c => in_lattice_region p c && in_first_sites p num_sites c)
                 (map (fun x => (x, y)) (x_loc img))).
Proof.
  intros Hne. unfold grid_plot, stack_coords.
  destruct (Nat.eqb_spec (length (y_loc img)) (length (x_loc img))) as [|_]; [done|].
  split.
  - intros Hone. destruct (y_loc img) as [|y [|y' ys]]; simpl in *; done.
  - intros y ->. simpl. eexists. split; [reflexivity|]. simpl.
    rewrite zip_fst_snd.
    induction (map (fun x => (x, y)) (x_loc img)) as [|c l IH]; simpl; [done|].
    destruct (in_lattice_region p c); simpl; [|done].
    destruct (in_first_sites p num_sites c); by rewrite IH.
Qed.

Lemma grid_plot_mismatched_lengths_witness :
  length [4; 3; 5]%Z <> length [3; 9]%Z
  /\ grid_plot full_lattice
       {| x_loc := [3; 9]%Z; y_loc := [4; 3; 5]%Z; actual_lattice := []; pixel_grid := [] |}
       1 false
     = Err ValueError.
Proof.
  assert (length [4; 3; 5]%Z <> length [3; 9]%Z) as Hne by (simpl; lia).
  assert (length [4; 3; 5]%Z <> 1) as Hone by (simpl; lia).
  split; [exact Hne|].
  exact (proj1 (grid_plot_mismatched_lengths full_lattice
                  {| x_loc := [3; 9]%Z; y_loc := [4; 3; 5]%Z;
                     actual_lattice := []; pixel_grid := [] |} 1 false Hne) Hone).
Defined.
